(** * FakeQuantizeMulFusion: a shallow embedding of the matcher callback

    Source: src/common/transformations/src/transformations/
            common_optimizations/fq_mul_fusion.cpp

    The pass rewrites  Multiply(FakeQuantize(data, in_L, in_H, out_L, out_H), C)
    into               FakeQuantize(data, in_L, in_H, out_L * C, out_H * C).

    The graph is an arena of nodes addressed by identifiers (the shared
    pointers of the source); consumer edges are the input references of
    the nodes held in the arena.  Nodes built by the callback are
    allocated in the arena and released at scope exit when nothing
    consumes them, as the reference counts of the source do. *)

From Stdlib Require Import ZArith SpecFloat.
From stdpp Require Import gmap strings list fin_maps.

Open Scope Z_scope.

(** ** Element types and scalar values *)

(** [ngraph::element::Type], restricted to the types a FakeQuantize
    output and its scale are built from in this development. *)
Inductive element_type := f16 | f32 | f64 | i32 | i64.

Global Instance element_type_eq_dec : EqDecision element_type.
Proof. solve_decision. Defined.

(** A value held by a constant: an IEEE-754 number for the floating
    types, an integer for the integral ones. *)
Inductive scalar :=
  | SFlt (x : spec_float)
  | SInt (z : Z).

Definition is_float_type (t : element_type) : bool :=
  match t with f16 | f32 | f64 => true | i32 | i64 => false end.

(** Precision and maximal exponent of a floating type. *)
Definition float_format (t : element_type) : Z * Z :=
  match t with
  | f16 => (11, 16)
  | f64 => (53, 1024)
  | _ => (24, 128)
  end.

(** Rounding of an IEEE number into the format [(prec, emax)]
    (round to nearest, ties to even). *)
Definition round_to (prec emax : Z) (x : spec_float) : spec_float :=
  match x with
  | S754_finite s m e => binary_normalize prec emax (cond_Zopp s (Zpos m)) e s
  | _ => x
  end.

(** [static_cast<float>(x)]: the C++ [float] is binary32. *)
Definition to_float (x : scalar) : spec_float :=
  match x with
  | SFlt y => round_to 24 128 y
  | SInt z => binary_normalize 24 128 z 0 false
  end.

(** Truncation of a [float] towards zero, the conversion to an integral
    type.  NaN and the infinities have no defined conversion in C++;
    they are sent to 0 here. *)
Definition float_to_Z (v : spec_float) : Z :=
  match v with
  | S754_finite s m e =>
      cond_Zopp s (if 0 <=? e then Zpos m * 2 ^ e else Zpos m / 2 ^ (- e))
  | _ => 0
  end.

(** [static_cast<T>(v)] for a [float] v and the storage type [T] of [t]. *)
Definition of_float (t : element_type) (v : spec_float) : scalar :=
  if is_float_type t
  then SFlt (round_to (fst (float_format t)) (snd (float_format t)) v)
  else SInt (float_to_Z v).

(** [a != b] on stored values: IEEE comparison on floats (NaN differs
    from itself, the two zeros are equal), integer comparison otherwise. *)
Definition scalar_eqb (a b : scalar) : bool :=
  match a, b with
  | SFlt x, SFlt y => SFeqb x y
  | SInt x, SInt y => Z.eqb x y
  | _, _ => false
  end.

(** Multiplication in the element type [t]: IEEE multiplication in the
    format of [t]; two's complement wrap-around for the integers. *)
Definition wrap (bits : Z) (z : Z) : Z :=
  let m := 2 ^ bits in
  let r := z mod m in
  if r <? 2 ^ (bits - 1) then r else r - m.

Definition int_bits (t : element_type) : Z :=
  match t with i32 => 32 | _ => 64 end.

Definition scalar_mul (t : element_type) (a b : scalar) : scalar :=
  match a, b with
  | SFlt x, SFlt y =>
      SFlt (SFmul (fst (float_format t)) (snd (float_format t)) x y)
  | SInt x, SInt y => SInt (wrap (int_bits t) (x * y))
  | _, _ => a
  end.

(** ** Shapes and tensors *)

(** [ngraph::Shape] is a [std::vector<size_t>]. *)
Abbreviation Shape := (list nat).

(** [shape_size]: the product of the dimensions. *)
Definition shape_size (s : Shape) : nat := foldr Nat.mul 1%nat s.

(** [ov::Dimension] and [ov::PartialShape]. *)
Inductive dimension := DimDynamic | DimStatic (n : nat).
Inductive partial_shape := RankDynamic | Ranked (dims : list dimension).

Global Instance dimension_eq_dec : EqDecision dimension.
Proof. solve_decision. Defined.
Global Instance partial_shape_eq_dec : EqDecision partial_shape.
Proof. solve_decision. Defined.

Definition dim_is_static (d : dimension) : bool :=
  match d with DimStatic _ => true | DimDynamic => false end.

(** [PartialShape::is_dynamic]. *)
Definition pshape_is_dynamic (p : partial_shape) : bool :=
  match p with
  | RankDynamic => true
  | Ranked ds => negb (forallb dim_is_static ds)
  end.

(** [PartialShape::rank]: [None] is the dynamic rank. *)
Definition pshape_rank (p : partial_shape) : option nat :=
  match p with
  | RankDynamic => None
  | Ranked ds => Some (length ds)
  end.

Definition static_pshape (s : Shape) : partial_shape :=
  Ranked (map DimStatic s).

(** [get_shape] is defined on static shapes only; the callback calls it
    after [is_dynamic] has been excluded. *)
Definition pshape_to_shape (p : partial_shape) : Shape :=
  match p with
  | RankDynamic => []
  | Ranked ds => map (fun d => match d with DimStatic n => n | _ => 0%nat end) ds
  end.

(** The value of a Constant node: element type, shape and raw values
    in row-major order. *)
Record tensor := Tensor {
  t_type : element_type;
  t_shape : Shape;
  t_data : list scalar
}.

(** ** The graph: an arena of operation nodes *)

(** [op::AutoBroadcastType]. *)
Inductive auto_broadcast_type := AB_NONE | AB_NUMPY | AB_PDPD.

Global Instance auto_broadcast_type_eq_dec : EqDecision auto_broadcast_type.
Proof. solve_decision. Defined.

(** The operation kinds the pass distinguishes ([is_type<...>]) and
    their attributes. *)
Inductive op_kind :=
  | OpParameter
  | OpConstant (value : tensor)
  | OpFakeQuantize (levels : nat) (auto_broadcast : auto_broadcast_type)
  | OpMultiply
  | OpReshape (special_zero : bool)
  | OpConvolution
  | OpGroupConvolution
  | OpResult
  | OpOther (type_name : string) (outputs : nat).

(** [Node::get_output_size]. *)
Definition output_size (op : op_kind) : nat :=
  match op with
  | OpOther _ k => k
  | _ => 1%nat
  end.

(** [Output<Node>]: a producer node and one of its output ports. *)
Abbreviation Output := (nat * nat)%type.

Record node := Node {
  n_op : op_kind;
  n_inputs : list Output;
  n_friendly_name : string;
  n_rt_info : gmap string string;
  n_element_type : element_type;
  n_out_pshape : partial_shape
}.

Abbreviation graph := (gmap nat node).

(** A placeholder for an identifier outside the arena.  Identifiers
    bound by the matcher always denote live nodes. *)
Definition no_node : node :=
  Node (OpOther EmptyString 1) [] EmptyString ∅ f32 RankDynamic.

Definition node_at (g : graph) (id : nat) : node := default no_node (g !! id).

(** [get_output_partial_shape(0)]; a Constant carries the shape of its
    value. *)
Definition output_pshape (n : node) : partial_shape :=
  match n_op n with
  | OpConstant t => static_pshape (t_shape t)
  | _ => n_out_pshape n
  end.

Definition get_shape (n : node) : Shape := pshape_to_shape (output_pshape n).

Definition is_constant (n : node) : bool :=
  match n_op n with OpConstant _ => true | _ => false end.

Definition is_convolution (n : node) : bool :=
  match n_op n with
  | OpConvolution | OpGroupConvolution => true
  | _ => false
  end.

(** *** Consumer edges *)

(** The input slots of [n] that read output [o]. *)
Fixpoint slots_reading (o : Output) (ins : list Output) (i : nat) : list nat :=
  match ins with
  | [] => []
  | x :: rest =>
      if decide (x = o) then i :: slots_reading o rest (S i)
      else slots_reading o rest (S i)
  end.

(** [Output::get_target_inputs]: the (consumer, slot) pairs reading [o]. *)
Definition target_inputs (g : graph) (o : Output) : list (nat * nat) :=
  flat_map (fun cn => map (fun i => (cn.1, i)) (slots_reading o (n_inputs cn.2) 0))
           (map_to_list g).

(** How many inputs of [n] read some output of node [id]. *)
Definition uses (id : nat) (n : node) : nat :=
  length (filter (fun o => o.1 = id) (n_inputs n)).

(** [Node::get_users]: one entry per consumer edge. *)
Definition get_users (g : graph) (id : nat) : list nat :=
  flat_map (fun cn => replicate (uses id cn.2) cn.1) (map_to_list g).

(** *** Allocation and release *)

(** [std::make_shared<...>]: the node gets an identifier that is not in
    the arena. *)
Definition alloc (g : graph) (n : node) : nat * graph :=
  let id := fresh (dom g) in (id, <[id := n]> g).

(** The last owner of [id] goes out of scope: the node is destroyed
    unless a node of the arena still consumes it. *)
Definition drop (g : graph) (id : nat) : graph :=
  match get_users g id with
  | [] => delete id g
  | _ => g
  end.

(** Scope exit: the locals are released, the newest first. *)
Definition release (temps : list nat) (g : graph) : graph :=
  foldl drop g temps.

(** Every input of every node of the arena is produced by a node of
    the arena: producers are kept alive by their consumers. *)
Definition closed_node (g : graph) (n : node) : Prop :=
  Forall (fun o : Output => o.1 ∈ dom g) (n_inputs n).

Definition closed (g : graph) : Prop :=
  map_Forall (fun _ n => closed_node g n) g.

(** Every input reads an output port its producer has. *)
Definition valid_ports (g : graph) : Prop :=
  map_Forall (fun _ n =>
    Forall (fun o : Output => (o.2 < output_size (n_op (node_at g o.1)))%nat)
           (n_inputs n)) g.

(** A node as a constructor leaves it: no friendly name of its own and
    an empty metadata bag. *)
Definition mk_node (op : op_kind) (ins : list Output)
    (ty : element_type) (ps : partial_shape) : node :=
  Node op ins EmptyString ∅ ty ps.

Definition constant_node (t : tensor) : node :=
  mk_node (OpConstant t) [] (t_type t) (static_pshape (t_shape t)).

(** ** Collaborators of the pass that live outside this file's source *)

(** Modelled from the spec: [op::util::get_single_value] (utils.hpp is
    not part of the sources at hand) proves a constant semantically
    single-valued when all its elements are equal; the value is handed
    back through the [float] out-parameter of the call site. *)
Definition get_single_value (t : tensor) : option spec_float :=
  match t_data t with
  | [] => None
  | x :: _ =>
      if forallb (fun y => scalar_eqb y x) (t_data t)
      then Some (to_float x) else None
  end.

(** [Constant(type, shape, v)] with a [float] v: every element is the
    conversion of [v] to the element type. *)
Definition constant_of_float (ty : element_type) (s : Shape) (v : spec_float)
    : tensor :=
  Tensor ty s (replicate (shape_size s) (of_float ty v)).

(** [op::Constant::create(element::i64, Shape{n}, shape)]. *)
Definition shape_constant (s : Shape) : tensor :=
  Tensor i64 [length s] (map (fun d => SInt (Z.of_nat d)) s).

(** *** Element-wise evaluation with numpy broadcasting *)

Definition pad_shape (r : nat) (s : Shape) : Shape :=
  replicate (r - length s) 1%nat ++ s.

Fixpoint broadcast_dims (a b : Shape) : option Shape :=
  match a, b with
  | [], [] => Some []
  | x :: a', y :: b' =>
      match broadcast_dims a' b' with
      | Some r =>
          if decide (x = y) then Some (x :: r)
          else if decide (x = 1%nat) then Some (y :: r)
          else if decide (y = 1%nat) then Some (x :: r)
          else None
      | None => None
      end
  | _, _ => None
  end.

Definition broadcast_shapes (a b : Shape) : option Shape :=
  let r := Nat.max (length a) (length b) in
  broadcast_dims (pad_shape r a) (pad_shape r b).

(** Linear (row-major) index in an operand of shape [s] of the element
    that is broadcast to linear index [i] of the result of shape [out];
    both shapes are given innermost axis first. *)
Fixpoint src_index (out_rev s_rev : Shape) (i : nat) : nat :=
  match out_rev, s_rev with
  | d :: out', e :: s' =>
      ((if decide (e = 1%nat) then 0 else i mod d)
       + e * src_index out' s' (i / d))%nat
  | _, _ => 0%nat
  end.

Definition broadcast_mul (a b : tensor) : option tensor :=
  match broadcast_shapes (t_shape a) (t_shape b) with
  | Some out =>
      let r := length out in
      let ia := src_index (rev out) (rev (pad_shape r (t_shape a))) in
      let ib := src_index (rev out) (rev (pad_shape r (t_shape b))) in
      match t_data a, t_data b with
      | xa :: _, xb :: _ =>
          Some (Tensor (t_type a) out
                  (map (fun i => scalar_mul (t_type a)
                                   (nth (ia i) (t_data a) xa)
                                   (nth (ib i) (t_data b) xb))
                       (seq 0 (shape_size out))))
      | _, _ => Some (Tensor (t_type a) out [])
      end
  | None => None
  end.

Definition scalar_to_nat (x : scalar) : nat :=
  match x with SInt z => Z.to_nat z | SFlt v => Z.to_nat (float_to_Z v) end.

(** Reshape with [special_zero = false]: the values are kept, the shape
    is the one the pattern input spells out. *)
Definition reshape_value (a pattern : tensor) : tensor :=
  Tensor (t_type a) (map scalar_to_nat (t_data pattern)) (t_data a).

(** Modelled from the spec: the constant folder behind
    [get_constant_from_source] (validation_util is not part of the
    sources at hand) evaluates a value whose inputs are all compile-time
    constants.  [fuel] bounds the depth of the evaluated expression. *)
Fixpoint constant_value (fuel : nat) (g : graph) (o : Output) : option tensor :=
  match fuel with
  | O => None
  | S k =>
      let n := node_at g o.1 in
      match n_op n, n_inputs n with
      | OpConstant t, _ => Some t
      | OpMultiply, [a; b] =>
          match constant_value k g a, constant_value k g b with
          | Some ta, Some tb => broadcast_mul ta tb
          | _, _ => None
          end
      | OpReshape _, [a; p] =>
          match constant_value k g a, constant_value k g p with
          | Some ta, Some tp => Some (reshape_value ta tp)
          | _, _ => None
          end
      | _, _ => None
      end
  end.

Definition evaluate_if_constant (g : graph) (o : Output) : option tensor :=
  constant_value (size g) g o.

(** Modelled from the spec: [copy_runtime_info(sources, destination)]
    merges the metadata bag of each source into the destination without
    overwriting the keys the destination already has. *)
Definition merge_rt_info (dst : gmap string string) (srcs : list node)
    : gmap string string :=
  foldl (fun acc src => acc ∪ n_rt_info src) dst srcs.

Definition set_rt_info (n : node) (m : gmap string string) : node :=
  Node (n_op n) (n_inputs n) (n_friendly_name n) m
       (n_element_type n) (n_out_pshape n).

Definition copy_runtime_info (g : graph) (from : list nat) (to : nat) : graph :=
  alter (fun n => set_rt_info n (merge_rt_info (n_rt_info n) (map (node_at g) from)))
        to g.

(** [Node::set_friendly_name]. *)
Definition set_friendly_name (g : graph) (id : nat) (name : string) : graph :=
  alter (fun n => Node (n_op n) (n_inputs n) name (n_rt_info n)
                       (n_element_type n) (n_out_pshape n)) id g.

(** Modelled from the spec: [replace_node(old, new)] makes every
    consumer edge that pointed at an output of [old] point at the
    corresponding output of [new]. *)
Definition redirect (old new : nat) (n : node) : node :=
  Node (n_op n)
       (map (fun o : Output => if decide (o.1 = old) then (new, o.2) else o)
            (n_inputs n))
       (n_friendly_name n) (n_rt_info n) (n_element_type n) (n_out_pshape n).

Definition replace_node (g : graph) (old new : nat) : graph :=
  redirect old new <$> g.

(** ** The pattern (lines 42-52) *)

(** What the matcher binds: [data_p], [fq_node_p], [fq_output_low_p],
    [fq_output_high_p], [mul_constant_p] and [mul_node_p]. *)
Record binding := Binding {
  b_data : Output;
  b_fq : nat;
  b_out_low : Output;
  b_out_high : Output;
  b_mul_constant : nat;
  b_mul : nat
}.

(** [pattern::consumers_count(n)]: the output has exactly [n] target
    inputs. *)
Definition consumers_count (n : nat) (g : graph) (o : Output) : bool :=
  Nat.eqb (length (target_inputs g o)) n.

(** [wrap_type<FakeQuantize>({data_p, any, any, low_p, high_p},
    consumers_count(1))] at output [o]. *)
Definition match_fq (g : graph) (o : Output) : option (Output * Output * Output) :=
  match g !! o.1 with
  | Some n =>
      match n_op n, n_inputs n with
      | OpFakeQuantize _ _, [d; _; _; lo; hi] =>
          if consumers_count 1 g o then Some (d, lo, hi) else None
      | _, _ => None
      end
  | None => None
  end.

(** [wrap_type<Constant>()] at output [o]. *)
Definition match_constant (g : graph) (o : Output) : bool :=
  match g !! o.1 with
  | Some n => is_constant n
  | None => false
  end.

Definition match_operands (g : graph) (root : nat) (a b : Output)
    : option binding :=
  match match_fq g a with
  | Some (d, lo, hi) =>
      if match_constant g b then Some (Binding d a.1 lo hi b.1 root) else None
  | None => None
  end.

(** [wrap_type<Multiply>({fq_node_p, mul_constant_p}, consumers_count(1))]
    at the root; Multiply is commutative, so the matcher tries both
    orders of its operands. *)
Definition match_pattern (g : graph) (root : nat) : option binding :=
  match g !! root with
  | Some n =>
      match n_op n, n_inputs n with
      | OpMultiply, [a; b] =>
          if consumers_count 1 g (root, 0%nat) then
            match match_operands g root a b with
            | Some bd => Some bd
            | None => match_operands g root b a
            end
          else None
      | _, _ => None
      end
  | None => None
  end.

(** ** The matcher callback (lines 54-149) *)

(** How an invocation ends: [return b], or an exception leaves the
    callback. *)
Inductive result := Returned (b : bool) | Thrown.

Record outcome := Outcome {
  out_result : result;
  out_graph : graph;
  (** the nodes offered to [transformation_callback], with their
      identifiers and the answer of the hook ([true] vetoes) *)
  out_consulted : list (nat * node * bool)
}.

(** [std::vector<size_t>::max_size()]. *)
Definition vector_max_size : Z := 2 ^ 60 - 1.

(** Lines 62-77: the scale, its shape, whether it is a single value,
    and the node allocated on the way. *)
Definition normalize_scale (g : graph) (mul_constant : nat)
    : bool * nat * Shape * graph * list nat :=
  let c := node_at g mul_constant in
  let mul_constant_shape := get_shape c in
  if decide (shape_size mul_constant_shape = 1%nat)
  then (true, mul_constant, mul_constant_shape, g, [])
  else
    match n_op c with
    | OpConstant t =>
        match get_single_value t with
        | Some v =>
            let '(id, g') :=
              alloc g (constant_node (constant_of_float (t_type t) [1%nat] v)) in
            (true, id, [1%nat], g', [id])
        | None => (false, mul_constant, mul_constant_shape, g, [])
        end
    | _ => (false, mul_constant, mul_constant_shape, g, [])
    end.

(** Lines 80-85. *)
Definition fq_output_is_conv (g : graph) (fq : nat) : bool :=
  existsb (fun u => is_convolution (node_at g u)) (get_users g fq).

Inductive guard_result :=
  | GuardReject
  | GuardThrow
  | GuardPass (mul_constant : nat) (g : graph) (temps : list nat).

Section Callback.

(** [validate_and_infer_types] of the IR library: element type and
    output shape of a node from its kind and inputs. *)
Variable infer : graph -> op_kind -> list Output -> element_type * partial_shape.

(** The acceptance hook [transformation_callback] of the pass. *)
Variable transformation_callback : graph -> nat -> bool.

Definition make_node (g : graph) (op : op_kind) (ins : list Output)
    : nat * graph :=
  alloc g (mk_node op ins (infer g op ins).1 (infer g op ins).2).

(** Lines 79-102, entered when the scale is not a single value.
    [diff] is computed in [size_t]: [rank - size] wraps around. *)
Definition align_scale (g : graph) (data : Output) (fq mul_constant : nat)
    (mul_constant_shape : Shape) : guard_result :=
  if fq_output_is_conv g fq then GuardReject
  else
    match pshape_rank (output_pshape (node_at g data.1)) with
    | None => GuardReject
    | Some rank =>
        let size := Z.of_nat (length mul_constant_shape) in
        let diff := (Z.of_nat rank - size) mod 2 ^ 64 in
        if 0 <? diff then
          if vector_max_size - size <? diff then GuardThrow
          else
            let shape' := replicate (Z.to_nat diff) 1%nat ++ mul_constant_shape in
            let '(p, g1) := alloc g (constant_node (shape_constant shape')) in
            let '(r, g2) :=
              make_node g1 (OpReshape false) [(mul_constant, 0%nat); (p, 0%nat)] in
            GuardPass r g2 [r; p]
        else GuardPass mul_constant g []
    end.

(** Lines 104-111: the adjusted range, the graph, and the node the
    caller now owns. *)
Definition get_adjusted_output_range (g : graph) (mul_constant : nat)
    (node : Output) : nat * graph :=
  let '(ret, g1) := make_node g OpMultiply [node; (mul_constant, 0%nat)] in
  let g2 := copy_runtime_info g1 [node.1] ret in
  match evaluate_if_constant g2 (ret, 0%nat) with
  | Some t =>
      let '(c, g3) := alloc g2 (constant_node t) in
      (c, drop g3 ret)
  | None => (ret, g2)
  end.

(** Lines 129-141: the shape re-check. *)
Definition shape_check_passes (new_fq mul : node) : bool :=
  match n_op new_fq with
  | OpFakeQuantize _ AB_NUMPY =>
      if pshape_is_dynamic (output_pshape new_fq)
         || pshape_is_dynamic (output_pshape mul)
      then false
      else bool_decide (get_shape new_fq = get_shape mul)
  | OpFakeQuantize _ _ => true
  | _ => false
  end.

(** Lines 143-146. *)
Definition commit (g : graph) (fq mul new_fq : nat) : graph :=
  let g1 := replace_node g mul new_fq in
  let g2 := set_friendly_name g1 new_fq (n_friendly_name (node_at g1 mul)) in
  copy_runtime_info g2 [fq; mul] new_fq.

(** Lines 113-117: the replacement node, or [None] when
    [input_value] is out of range. *)
Definition build_replacement (g : graph) (b : binding) (mul_constant : nat)
    : option (nat * graph * list nat) :=
  let fq_node := node_at g (b_fq b) in
  match n_inputs fq_node with
  | i0 :: i1 :: i2 :: _ =>
      let '(low, g1) := get_adjusted_output_range g mul_constant (b_out_low b) in
      let '(high, g2) := get_adjusted_output_range g1 mul_constant (b_out_high b) in
      let '(new_fq, g3) :=
        make_node g2 (n_op fq_node)
                  [i0; i1; i2; (low, 0%nat); (high, 0%nat)] in
      Some (new_fq, g3, [new_fq; high; low])
  | _ => None
  end.

(** Lines 118-148: veto, shape re-check, commit. *)
Definition decide_rewrite (g3 : graph) (b : binding) (new_fq : nat)
    (temps : list nat) : outcome :=
  let fq_on_weights := is_constant (node_at g3 (b_data b).1) in
  let veto := transformation_callback g3 new_fq in
  let consulted :=
    if fq_on_weights then [] else [(new_fq, node_at g3 new_fq, veto)] in
  if negb fq_on_weights && veto
  then Outcome (Returned false) (release temps g3) consulted
  else if shape_check_passes (node_at g3 new_fq) (node_at g3 (b_mul b))
  then Outcome (Returned true)
               (release temps (commit g3 (b_fq b) (b_mul b) new_fq))
               consulted
  else Outcome (Returned false) (release temps g3) consulted.

(** The state in which lines 55-117 leave the invocation: rejected by
    a guard, left by an exception, or ready with the replacement
    [new_fq] built.  Each carries the arena and the locals that own
    freshly built nodes. *)
Inductive prepared :=
  | PrepReject (g : graph) (temps : list nat)
  | PrepThrow (g : graph) (temps : list nat)
  | PrepReady (new_fq : nat) (g : graph) (temps : list nat).

Definition build_with_scale (g : graph) (b : binding) (mul_constant : nat)
    (temps : list nat) : prepared :=
  match build_replacement g b mul_constant with
  | Some (new_fq, g3, temps3) => PrepReady new_fq g3 (temps3 ++ temps)
  | None => PrepThrow g temps
  end.

(** Lines 55-117. *)
Definition prepare (g : graph) (b : binding) : prepared :=
  let '(is_single_value, mul_constant, mul_constant_shape, g1, temps) :=
    normalize_scale g (b_mul_constant b) in
  if is_single_value then build_with_scale g1 b mul_constant temps
  else
    match align_scale g1 (b_data b) (b_fq b) mul_constant mul_constant_shape with
    | GuardReject => PrepReject g1 temps
    | GuardThrow => PrepThrow g1 temps
    | GuardPass mul_constant' g2 temps2 =>
        build_with_scale g2 b mul_constant' (temps2 ++ temps)
    end.

(** The callback on a binding. *)
Definition callback (g : graph) (b : binding) : outcome :=
  match prepare g b with
  | PrepReject g1 temps => Outcome (Returned false) (release temps g1) []
  | PrepThrow g1 temps => Outcome Thrown (release temps g1) []
  | PrepReady new_fq g3 temps => decide_rewrite g3 b new_fq temps
  end.

End Callback.

(** ** Shape inference of the IR library, for the operations built here

    FakeQuantize takes type and shape of its data input; Multiply
    broadcasts its operands numpy-style; Reshape takes the shape its
    constant pattern spells out. *)

Definition broadcast_dim (x y : dimension) : dimension :=
  match x, y with
  | DimStatic a, DimStatic b => if decide (a = 1%nat) then DimStatic b else DimStatic a
  | DimStatic a, DimDynamic => if decide (a = 1%nat) then DimDynamic else DimStatic a
  | DimDynamic, DimStatic b => if decide (b = 1%nat) then DimDynamic else DimStatic b
  | DimDynamic, DimDynamic => DimDynamic
  end.

Fixpoint zip_dims (a b : list dimension) : list dimension :=
  match a, b with
  | x :: a', y :: b' => broadcast_dim x y :: zip_dims a' b'
  | _, _ => []
  end.

Definition broadcast_pshape (p q : partial_shape) : partial_shape :=
  match p, q with
  | Ranked a, Ranked b =>
      let r := Nat.max (length a) (length b) in
      Ranked (zip_dims (replicate (r - length a) (DimStatic 1) ++ a)
                       (replicate (r - length b) (DimStatic 1) ++ b))
  | _, _ => RankDynamic
  end.

Definition ngraph_infer (g : graph) (op : op_kind) (ins : list Output)
    : element_type * partial_shape :=
  match op, ins with
  | OpFakeQuantize _ _, d :: _ =>
      (n_element_type (node_at g d.1), output_pshape (node_at g d.1))
  | OpMultiply, [a; b] =>
      (n_element_type (node_at g a.1),
       broadcast_pshape (output_pshape (node_at g a.1))
                        (output_pshape (node_at g b.1)))
  | OpReshape _, [a; p] =>
      (n_element_type (node_at g a.1),
       match n_op (node_at g p.1) with
       | OpConstant t => static_pshape (map scalar_to_nat (t_data t))
       | _ => RankDynamic
       end)
  | _, _ => (f32, RankDynamic)
  end.

(** ** Invariants used by the proofs *)

(** [extends g0 ts g]: [g] is [g0] with the nodes [ts] allocated on top
    (newest first), each reading only nodes that existed before it. *)
Inductive extends (g0 : graph) : list nat -> graph -> Prop :=
  | extends_nil : extends g0 [] g0
  | extends_cons ts g id n :
      extends g0 ts g -> g !! id = None -> closed_node g n ->
      extends g0 (id :: ts) (<[id := n]> g).

(** The identifiers bound by the matcher denote nodes of the arena. *)
Definition bound (g : graph) (b : binding) : Prop :=
  (b_data b).1 ∈ dom g /\ b_fq b ∈ dom g /\ (b_out_low b).1 ∈ dom g /\
  (b_out_high b).1 ∈ dom g /\ b_mul_constant b ∈ dom g /\ b_mul b ∈ dom g.

(** The arena and locals a prepared state carries. *)
Definition prepared_state (p : prepared) : graph * list nat :=
  match p with
  | PrepReject g ts | PrepThrow g ts | PrepReady _ g ts => (g, ts)
  end.

(** ** Concrete graphs

    The subgraph of the header comment: node 0 is the data producer,
    1-4 are the four range constants, 5 is the FakeQuantize, 6 the
    scale, 7 the Multiply and 8 its consumer. *)

Definition F32 (z : Z) : scalar := SFlt (binary_normalize 24 128 z 0 false).

Definition range_constant (z : Z) : node :=
  constant_node (Tensor f32 [1%nat] [F32 z]).

Definition fusion_graph (data : node) (ab : auto_broadcast_type)
    (scale : tensor) (mul_pshape : partial_shape) : graph :=
  list_to_map
    [(0%nat, data);
     (1%nat, range_constant 0);
     (2%nat, range_constant 1);
     (3%nat, range_constant 0);
     (4%nat, range_constant 1);
     (5%nat, Node (OpFakeQuantize 256 ab)
                  [(0, 0); (1, 0); (2, 0); (3, 0); (4, 0)]%nat
                  "fq" {["fused_names" := "fq"]} f32 (output_pshape data));
     (6%nat, constant_node scale);
     (7%nat, Node OpMultiply [(5, 0); (6, 0)]%nat
                  "mul" {["origin" := "mul"]} f32 mul_pshape);
     (8%nat, Node OpResult [(7, 0)]%nat "result" ∅ f32 mul_pshape)].

Definition fusion_binding : binding :=
  Binding (0, 0)%nat 5 (3, 0)%nat (4, 0)%nat 6 7.

Definition image_pshape : partial_shape := static_pshape [1; 3; 8; 8]%nat.

Definition parameter_node (ps : partial_shape) : node :=
  Node OpParameter [] "data" ∅ f32 ps.

(** The accepted end-to-end scenario: data [1,3,8,8], ranges 0 and 1,
    scale 2 of shape [1]. *)
Definition g_accept : graph :=
  fusion_graph (parameter_node image_pshape) AB_NUMPY
               (Tensor f32 [1%nat] [F32 2]) image_pshape.


(** A per-channel scale of shape [1,3,1,1] with differing values. *)
Definition per_channel_scale : tensor :=
  Tensor f32 [1; 3; 1; 1]%nat [F32 2; F32 3; F32 4].

Definition g_per_channel : graph :=
  fusion_graph (parameter_node image_pshape) AB_NUMPY per_channel_scale
               image_pshape.

(** The quantize node also feeds a Convolution (node 9). *)
Definition g_conv : graph :=
  <[9%nat := Node OpConvolution [(5, 0); (1, 0)]%nat "conv" ∅ f32 RankDynamic]>
    g_per_channel.

(** The data input has no known rank. *)
Definition g_dynamic_rank : graph :=
  fusion_graph (parameter_node RankDynamic) AB_NUMPY per_channel_scale
               RankDynamic.

(** One dynamic dimension, under either broadcast policy. *)
Definition g_dynamic_dim (ab : auto_broadcast_type) : graph :=
  fusion_graph (parameter_node (Ranked [DimDynamic])) ab
               (Tensor f32 [1%nat] [F32 2]) (Ranked [DimDynamic]).

(** A scale of rank 2 on data of rank 1. *)
Definition g_scale_rank_above_data : graph :=
  fusion_graph (parameter_node (static_pshape [3%nat])) AB_NUMPY
               (Tensor f32 [2; 3]%nat
                       [F32 1; F32 2; F32 3; F32 4; F32 5; F32 6])
               (static_pshape [2; 3]%nat).

Definition never_veto (g : graph) (id : nat) : bool := false.
Definition always_veto (g : graph) (id : nat) : bool := true.

(** The scale is genuinely multi-valued: it does not hold exactly one
    element, and it is not a constant whose elements are all equal. *)
Definition multi_valued (n : node) : bool :=
  negb (bool_decide (shape_size (get_shape n) = 1%nat))
  && match n_op n with
     | OpConstant t => bool_decide (get_single_value t = None)
     | _ => true
     end.




Global Instance closed_dec (g : graph) : Decision (closed g).
Proof. unfold closed, closed_node. apply _. Defined.

Global Instance valid_ports_dec (g : graph) : Decision (valid_ports g).
Proof. unfold valid_ports. apply _. Defined.

Global Instance bound_dec (g : graph) (b : binding) : Decision (bound g b).
Proof. unfold bound. apply _. Defined.


(** A per-channel scale of shape [3,1,1] on data of rank 4: the scale
    is left-padded to [1,3,1,1]. *)
Definition g_pad : graph :=
  fusion_graph (parameter_node image_pshape) AB_NUMPY
               (Tensor f32 [3; 1; 1]%nat [F32 2; F32 3; F32 4]) image_pshape.

(** The kinds the constant folder evaluates through. *)
Definition foldable_kind (op : op_kind) : bool :=
  match op with
  | OpConstant _ | OpMultiply | OpReshape _ => true
  | _ => false
  end.

(** The output-range-low input is a runtime value (node 3 is a
    Parameter). *)
Definition g_runtime_range : graph :=
  <[3%nat := Node OpParameter [] "out_low" {["origin" := "calibration"]} f32
                  (static_pshape [1%nat])]> g_accept.

(** A single-value scale while the quantize node also feeds a
    Convolution (node 9). *)
Definition g_conv_scalar : graph :=
  <[9%nat := Node OpConvolution [(5, 0); (1, 0)]%nat "conv" ∅ f32 RankDynamic]>
    g_accept.

(** * Properties *)

(** ** Consumer edges under allocation *)

Lemma get_users_insert (g : graph) (id : nat) (n : node) (x : nat) :
  g !! id = None ->
  get_users (<[id := n]> g) x ≡ₚ replicate (uses x n) id ++ get_users g x.
Proof.
  intros Hid. unfold get_users.
  rewrite (map_to_list_insert g id n Hid). reflexivity.
Qed.

Lemma target_inputs_insert (g : graph) (id : nat) (n : node) (o : Output) :
  g !! id = None ->
  target_inputs (<[id := n]> g) o
    ≡ₚ map (fun i => (id, i)) (slots_reading o (n_inputs n) 0) ++ target_inputs g o.
Proof.
  intros Hid. unfold target_inputs.
  rewrite (map_to_list_insert g id n Hid). reflexivity.
Qed.

Lemma uses_closed (g : graph) (n : node) (id : nat) :
  closed_node g n -> id ∉ dom g -> uses id n = 0%nat.
Proof.
  unfold closed_node, uses. intros Hc Hid.
  induction Hc as [|o ins Ho _ IH]; [reflexivity|].
  rewrite filter_cons_False; [exact IH|].
  simpl. intros Heq. apply Hid. rewrite <- Heq. exact Ho.
Qed.

Lemma get_users_closed (g : graph) (id : nat) :
  closed g -> id ∉ dom g -> get_users g id = [].
Proof.
  intros Hc Hid. unfold get_users.
  assert (H : Forall (fun cn : nat * node => uses id cn.2 = 0%nat) (map_to_list g)).
  { apply Forall_forall. intros [c n] Hin.
    apply elem_of_map_to_list in Hin. simpl.
    eapply uses_closed; [exact (Hc c n Hin)|exact Hid]. }
  induction H as [|cn l Hcn _ IH]; [reflexivity|].
  simpl. rewrite Hcn. exact IH.
Qed.

Lemma closed_node_mono (g : graph) (id : nat) (m n : node) :
  closed_node g n -> closed_node (<[id := m]> g) n.
Proof.
  unfold closed_node. intros H. eapply Forall_impl; [exact H|].
  intros o Ho. simpl. rewrite dom_insert_L. set_solver.
Qed.

Lemma closed_insert (g : graph) (id : nat) (n : node) :
  closed g -> closed_node g n -> closed (<[id := n]> g).
Proof.
  intros Hc Hn. apply map_Forall_insert_2.
  - by apply closed_node_mono.
  - intros k m Hk. apply closed_node_mono. exact (Hc k m Hk).
Qed.

(** Releasing a node that was just allocated gives the arena back. *)
Lemma drop_insert (g : graph) (id : nat) (n : node) :
  closed g -> closed_node g n -> g !! id = None ->
  drop (<[id := n]> g) id = g.
Proof.
  intros Hc Hn Hid. unfold drop.
  assert (Hd : id ∉ dom g) by (by apply not_elem_of_dom).
  assert (Hu : get_users (<[id := n]> g) id = []).
  { apply Permutation_nil_r. rewrite (get_users_insert g id n id Hid).
    rewrite (uses_closed g n id Hn Hd), (get_users_closed g id Hc Hd).
    reflexivity. }
  rewrite Hu. by apply delete_insert_id.
Qed.

(** ** Allocation on top of an arena, and its release *)

Lemma alloc_fresh (g : graph) (n : node) : g !! (alloc g n).1 = None.
Proof. simpl. apply not_elem_of_dom, is_fresh. Qed.

Lemma extends_closed (g0 g : graph) (ts : list nat) :
  closed g0 -> extends g0 ts g -> closed g.
Proof.
  intros Hc He. induction He as [|ts g id n _ IH Hid Hn]; [exact Hc|].
  by apply closed_insert.
Qed.

Lemma extends_lookup (g0 g : graph) (ts : list nat) (k : nat) (n : node) :
  extends g0 ts g -> g0 !! k = Some n -> g !! k = Some n.
Proof.
  intros He Hk. induction He as [|ts g id m _ IH Hid _]; [exact Hk|].
  rewrite lookup_insert_ne; [exact IH|]. intros ->. congruence.
Qed.

Lemma extends_dom (g0 g : graph) (ts : list nat) (k : nat) :
  extends g0 ts g -> k ∈ dom g0 -> k ∈ dom g.
Proof.
  intros He [n Hk]%elem_of_dom. apply elem_of_dom.
  exists n. by eapply extends_lookup.
Qed.

Lemma extends_node_at (g0 g : graph) (ts : list nat) (k : nat) :
  extends g0 ts g -> k ∈ dom g0 -> node_at g k = node_at g0 k.
Proof.
  intros He [n Hk]%elem_of_dom. unfold node_at.
  by rewrite (extends_lookup g0 g ts k n He Hk), Hk.
Qed.

Lemma extends_trans (g0 g1 g2 : graph) (ts1 ts2 : list nat) :
  extends g0 ts1 g1 -> extends g1 ts2 g2 -> extends g0 (ts2 ++ ts1) g2.
Proof.
  intros H1 H2. induction H2 as [|ts g id n _ IH Hid Hn]; [exact H1|].
  simpl. by constructor.
Qed.

(** The arena is restored when everything allocated on top of it is
    released. *)
Lemma release_extends (g0 g : graph) (ts : list nat) :
  closed g0 -> extends g0 ts g -> release ts g = g0.
Proof.
  intros Hc He. induction He as [|ts g id n He IH Hid Hn]; [reflexivity|].
  unfold release. simpl.
  rewrite drop_insert; [exact IH|by eapply extends_closed|exact Hn|exact Hid].
Qed.

Lemma extends_alloc (g : graph) (n : node) :
  closed_node g n -> extends g [(alloc g n).1] (alloc g n).2.
Proof.
  intros Hn. simpl. apply (extends_cons g [] g); [constructor| |exact Hn].
  apply (alloc_fresh g n).
Qed.

Lemma closed_node_constant (g : graph) (t : tensor) :
  closed_node g (constant_node t).
Proof. constructor. Qed.

(** ** The phases of the callback only allocate on top of the arena *)

Lemma normalize_scale_extends (g : graph) (c : nat) :
  extends g (normalize_scale g c).2 (normalize_scale g c).1.2 /\
  (c ∈ dom g -> (normalize_scale g c).1.1.1.2 ∈ dom (normalize_scale g c).1.2).
Proof.
  unfold normalize_scale.
  destruct (decide _) as [|_]; simpl; [split; [constructor|done]|].
  destruct (n_op (node_at g c)) as [|t| | | | | | |]; simpl;
    try (split; [constructor|done]).
  destruct (get_single_value t) as [v|]; simpl; [|split; [constructor|done]].
  split.
  - apply (extends_alloc g (constant_node _)), closed_node_constant.
  - intros _. rewrite dom_insert_L. set_solver.
Qed.

Section CallbackLemmas.

Variable infer : graph -> op_kind -> list Output -> element_type * partial_shape.
Lemma make_node_extends (g : graph) (op : op_kind) (ins : list Output) :
  Forall (fun o : Output => o.1 ∈ dom g) ins ->
  extends g [(make_node infer g op ins).1] (make_node infer g op ins).2.
Proof. intros H. unfold make_node. by apply extends_alloc. Qed.

Lemma align_scale_extends (g : graph) (data : Output) (fq mc : nat)
    (shape : Shape) (mc' : nat) (g2 : graph) (ts2 : list nat) :
  align_scale infer g data fq mc shape = GuardPass mc' g2 ts2 ->
  mc ∈ dom g -> extends g ts2 g2 /\ mc' ∈ dom g2.
Proof.
  unfold align_scale. intros H Hmc.
  destruct (fq_output_is_conv g fq); [discriminate|].
  destruct (pshape_rank _) as [rank|]; [|discriminate].
  destruct (0 <? _); [|by inversion H; subst; split; [constructor|]].
  destruct (_ <? _); [discriminate|].
  set (tp := constant_node _) in H.
  simpl in H. inversion H; subst; clear H. split.
  - apply (extends_cons g [fresh (dom g)] (<[fresh (dom g) := tp]> g)).
    + apply (extends_alloc g tp), closed_node_constant.
    + apply not_elem_of_dom, is_fresh.
    + repeat constructor; simpl; rewrite dom_insert_L; set_solver.
  - rewrite dom_insert_L. set_solver.
Qed.

Lemma get_adjusted_output_range_extends (g : graph) (mc : nat) (o : Output) :
  closed g -> mc ∈ dom g -> o.1 ∈ dom g ->
  extends g [(get_adjusted_output_range infer g mc o).1]
            (get_adjusted_output_range infer g mc o).2.
Proof.
  intros Hc Hmc Ho. unfold get_adjusted_output_range, make_node.
  set (n := mk_node _ _ _ _). simpl.
  set (ret := fresh (dom g)).
  assert (Hret : g !! ret = None) by apply not_elem_of_dom, is_fresh.
  assert (Hn : closed_node g n) by (repeat constructor; done).
  unfold copy_runtime_info. rewrite alter_insert_eq.
  set (n' := set_rt_info n _).
  assert (Hn' : closed_node g n') by exact Hn.
  destruct (evaluate_if_constant _ _) as [t|]; simpl.
  - set (c := fresh (dom (<[ret := n']> g))).
    assert (Hc1 : c ∉ dom (<[ret := n']> g)) by apply is_fresh.
    rewrite dom_insert_L in Hc1.
    assert (Hne : c <> ret) by set_solver.
    assert (Hcg : g !! c = None) by (apply not_elem_of_dom; set_solver).
    rewrite insert_insert_ne by done.
    rewrite drop_insert.
    + apply (extends_cons g [] g); [constructor|done|constructor].
    + apply closed_insert; [done|constructor].
    + by apply closed_node_mono.
    + by rewrite lookup_insert_ne.
  - apply (extends_cons g [] g); [constructor|done|done].
Qed.

Lemma extends_head_dom (g0 g : graph) (id : nat) (ts : list nat) :
  extends g0 (id :: ts) g -> id ∈ dom g.
Proof. inversion 1; subst. rewrite dom_insert_L. set_solver. Qed.

Lemma closed_lookup (g : graph) (k : nat) :
  closed g -> k ∈ dom g -> closed_node g (node_at g k).
Proof.
  intros Hc [n Hk]%elem_of_dom. unfold node_at. rewrite Hk. exact (Hc k n Hk).
Qed.

Lemma build_replacement_extends (g : graph) (b : binding) (mc : nat)
    (new_fq : nat) (g3 : graph) (ts3 : list nat) :
  closed g -> bound g b -> mc ∈ dom g ->
  build_replacement infer g b mc = Some (new_fq, g3, ts3) ->
  extends g ts3 g3.
Proof.
  intros Hc (Hd & Hfq & Hlo & Hhi & _ & _) Hmc. unfold build_replacement.
  pose proof (closed_lookup g (b_fq b) Hc Hfq) as Hin. unfold closed_node in Hin.
  destruct (n_inputs (node_at g (b_fq b))) as [|i0 [|i1 [|i2 rest]]];
    try discriminate.
  pose proof (get_adjusted_output_range_extends g mc (b_out_low b) Hc Hmc Hlo) as E1.
  destruct (get_adjusted_output_range infer g mc (b_out_low b)) as [low g1].
  simpl in E1.
  assert (Hc1 : closed g1) by (by eapply extends_closed).
  pose proof (get_adjusted_output_range_extends g1 mc (b_out_high b) Hc1
                (extends_dom _ _ _ _ E1 Hmc) (extends_dom _ _ _ _ E1 Hhi)) as E2.
  destruct (get_adjusted_output_range infer g1 mc (b_out_high b)) as [high g2].
  simpl in E2.
  pose proof (extends_trans _ _ _ _ _ E1 E2) as E12. simpl in E12.
  assert (Hins : Forall (fun o : Output => o.1 ∈ dom g2)
                   [i0; i1; i2; (low, 0%nat); (high, 0%nat)]).
  { inversion Hin as [|? ? H0 Hin1]; subst.
    inversion Hin1 as [|? ? H1 Hin2]; subst.
    inversion Hin2 as [|? ? H2 _]; subst.
    repeat constructor; simpl.
    - by eapply extends_dom.
    - by eapply extends_dom.
    - by eapply extends_dom.
    - eapply extends_dom; [exact E2|]. by eapply extends_head_dom.
    - by eapply extends_head_dom. }
  pose proof (make_node_extends g2 (n_op (node_at g (b_fq b))) _ Hins) as E3.
  destruct (make_node infer g2 _ _) as [nf g3'].
  simpl in E3. intros H; inversion H; subst; clear H.
  exact (extends_trans _ _ _ _ _ E12 E3).
Qed.

Variable transformation_callback : graph -> nat -> bool.

Lemma decide_rewrite_rejected (g0 g3 : graph) (b : binding) (new_fq : nat)
    (ts : list nat) :
  closed g0 -> extends g0 ts g3 ->
  out_result (decide_rewrite transformation_callback g3 b new_fq ts)
    <> Returned true ->
  out_graph (decide_rewrite transformation_callback g3 b new_fq ts) = g0.
Proof.
  intros Hc He. unfold decide_rewrite.
  destruct (negb _ && _); simpl; [intros _; by apply release_extends|].
  destruct (shape_check_passes _ _); simpl; [congruence|].
  intros _. by apply release_extends.
Qed.

Lemma bound_extends (g0 g : graph) (ts : list nat) (b : binding) :
  extends g0 ts g -> bound g0 b -> bound g b.
Proof.
  intros He (H1 & H2 & H3 & H4 & H5 & H6).
  repeat split; by eapply extends_dom.
Qed.

Lemma build_with_scale_extends (g0 g : graph) (b : binding) (mc : nat)
    (ts : list nat) :
  closed g0 -> extends g0 ts g -> bound g b -> mc ∈ dom g ->
  extends g0 (prepared_state (build_with_scale infer g b mc ts)).2
             (prepared_state (build_with_scale infer g b mc ts)).1.
Proof.
  intros Hc He Hb Hmc. unfold build_with_scale.
  destruct (build_replacement infer g b mc) as [[[new_fq g3] ts3]|] eqn:E;
    simpl; [|exact He].
  eapply extends_trans; [exact He|].
  eapply build_replacement_extends; eauto using extends_closed.
Qed.

Lemma prepare_extends (g : graph) (b : binding) :
  closed g -> bound g b ->
  extends g (prepared_state (prepare infer g b)).2
            (prepared_state (prepare infer g b)).1.
Proof.
  intros Hc Hb. unfold prepare.
  destruct (normalize_scale_extends g (b_mul_constant b)) as [E1 Hmc].
  destruct (normalize_scale g (b_mul_constant b))
    as [[[[single mc] shape] g1] ts]. simpl in E1, Hmc.
  assert (Hmc1 : mc ∈ dom g1) by (apply Hmc, Hb).
  destruct single.
  - apply build_with_scale_extends; eauto using bound_extends.
  - destruct (align_scale infer g1 (b_data b) (b_fq b) mc shape)
      as [| |mc' g2 ts2] eqn:E2; simpl; [exact E1|exact E1|].
    destruct (align_scale_extends _ _ _ _ _ _ _ _ E2 Hmc1) as [E3 Hmc2].
    pose proof (extends_trans _ _ _ _ _ E1 E3) as E13.
    apply build_with_scale_extends; eauto using bound_extends.
Qed.

(** No partial state escapes: whenever the callback does not commit,
    whether it returns [false] or an exception leaves it, the arena is
    the one it was called on. *)
Lemma callback_rejected_unchanged (g : graph) (b : binding) :
  closed g -> bound g b ->
  out_result (callback infer transformation_callback g b) <> Returned true ->
  out_graph (callback infer transformation_callback g b) = g.
Proof.
  intros Hc Hb. unfold callback.
  pose proof (prepare_extends g b Hc Hb) as He.
  destruct (prepare infer g b) as [g1 ts|g1 ts|new_fq g3 ts]; simpl in *.
  - intros _. by apply release_extends.
  - intros _. by apply release_extends.
  - by apply decide_rewrite_rejected.
Qed.

End CallbackLemmas.

(** ** Scale normalization (lines 62-77) *)



Lemma multi_valued_normalize (g : graph) (c : nat) :
  multi_valued (node_at g c) = true ->
  normalize_scale g c = (false, c, get_shape (node_at g c), g, []).
Proof.
  unfold multi_valued, normalize_scale. intros [H1 H2]%andb_true_iff.
  apply negb_true_iff, bool_decide_eq_false in H1.
  destruct (decide _) as [|_]; [contradiction|].
  destruct (n_op (node_at g c)) as [|t| | | | | | |]; try reflexivity.
  apply bool_decide_eq_true in H2. by rewrite H2.
Qed.




(** ** The guards for a multi-valued scale (lines 79-92) *)

Section Guards.

Variable infer : graph -> op_kind -> list Output -> element_type * partial_shape.
Variable transformation_callback : graph -> nat -> bool.

Lemma fq_output_is_conv_intro (g : graph) (fq u : nat) :
  u ∈ get_users g fq -> is_convolution (node_at g u) = true ->
  fq_output_is_conv g fq = true.
Proof.
  intros Hu Hconv. unfold fq_output_is_conv.
  apply existsb_exists. exists u. split; [by apply list_elem_of_In|exact Hconv].
Qed.

(** C4: when the scale is genuinely multi-valued and a consumer of the
    quantize node is a Convolution or a GroupConvolution, the callback
    returns false, consults nobody and leaves the graph as it was. *)
Theorem convolution_guard (g : graph) (b : binding) (u : nat) :
  multi_valued (node_at g (b_mul_constant b)) = true ->
  u ∈ get_users g (b_fq b) ->
  is_convolution (node_at g u) = true ->
  callback infer transformation_callback g b = Outcome (Returned false) g [].
Proof.
  intros Hm Hu Hconv. unfold callback, prepare.
  rewrite (multi_valued_normalize g _ Hm).
  unfold align_scale. by rewrite (fq_output_is_conv_intro g _ u Hu Hconv).
Qed.

(** C6: when the scale is genuinely multi-valued and the rank of the
    data input is dynamic, the callback returns false and leaves the
    graph as it was. *)
Theorem unknown_rank_guard (g : graph) (b : binding) :
  multi_valued (node_at g (b_mul_constant b)) = true ->
  pshape_rank (output_pshape (node_at g (b_data b).1)) = None ->
  callback infer transformation_callback g b = Outcome (Returned false) g [].
Proof.
  intros Hm Hr. unfold callback, prepare.
  rewrite (multi_valued_normalize g _ Hm).
  unfold align_scale. rewrite Hr. by destruct (fq_output_is_conv g (b_fq b)).
Qed.

End Guards.

Lemma convolution_guard_witness :
  callback ngraph_infer never_veto g_conv fusion_binding
    = Outcome (Returned false) g_conv [].
Proof.
  apply (convolution_guard ngraph_infer never_veto g_conv fusion_binding 9%nat).
  - reflexivity.
  - apply list_elem_of_In. vm_compute. auto.
  - reflexivity.
Defined.

Lemma unknown_rank_guard_witness :
  callback ngraph_infer always_veto g_dynamic_rank fusion_binding
    = Outcome (Returned false) g_dynamic_rank [].
Proof.
  apply (unknown_rank_guard ngraph_infer always_veto g_dynamic_rank fusion_binding).
  - reflexivity.
  - reflexivity.
Defined.

(** ** The size_t difference of line 94 *)

(** C2 at a concrete match: the data has rank 1 and the multi-valued
    scale has shape [2,3].  [rank - mul_constant_shape.size()] wraps to
    2^64 - 1, the insertion of that many axes cannot be served, and the
    invocation ends with neither [true] nor [false]. *)
Theorem scale_rank_above_data_throws :
  match_pattern g_scale_rank_above_data 7 = Some fusion_binding /\
  out_result (callback ngraph_infer never_veto g_scale_rank_above_data
                       fusion_binding) = Thrown /\
  out_graph (callback ngraph_infer never_veto g_scale_rank_above_data
                      fusion_binding) = g_scale_rank_above_data.
Proof. split; [|split]; reflexivity. Qed.

(** ** What the pattern guarantees about the quantize node *)

Lemma slots_reading_length (id : nat) (ins : list Output) (k : nat) :
  Forall (fun o : Output => o.1 = id -> o.2 = 0%nat) ins ->
  length (slots_reading (id, 0%nat) ins k)
    = length (filter (fun o : Output => o.1 = id) ins).
Proof.
  intros H. revert k.
  induction H as [|[p q] ins Ho _ IH]; intros k; [reflexivity|].
  simpl. rewrite filter_cons. simpl in *.
  destruct (decide (p = id)) as [->|Hne].
  - rewrite (Ho eq_refl). destruct (decide _) as [_|]; [|done].
    simpl. f_equal. apply IH.
  - destruct (decide ((p, q) = (id, 0%nat))) as [Heq|_]; [congruence|]. apply IH.
Qed.

Lemma slots_reading_elem (o : Output) (ins : list Output) (i k : nat) :
  ins !! i = Some o -> (k + i)%nat ∈ slots_reading o ins k.
Proof.
  revert i k. induction ins as [|x ins IH]; intros i k Hi; [done|].
  destruct i as [|i]; simpl in *.
  - inversion Hi; subst. rewrite decide_True by done.
    rewrite Nat.add_0_r. apply list_elem_of_here.
  - replace (k + S i)%nat with (S k + i)%nat by lia.
    destruct (decide (x = o)); [apply list_elem_of_further|]; by apply IH.
Qed.

Lemma target_inputs_elem (g : graph) (c : nat) (n : node) (i : nat) (o : Output) :
  g !! c = Some n -> n_inputs n !! i = Some o -> (c, i) ∈ target_inputs g o.
Proof.
  intros Hc Hi. unfold target_inputs.
  apply list_elem_of_In, in_flat_map. exists (c, n). split.
  - apply list_elem_of_In. by apply elem_of_map_to_list.
  - simpl. apply in_map. apply list_elem_of_In.
    exact (slots_reading_elem o (n_inputs n) i 0 Hi).
Qed.

(** With one output port, the users are the consumers of port 0. *)
Lemma get_users_target_inputs (g : graph) (id : nat) :
  valid_ports g -> output_size (n_op (node_at g id)) = 1%nat ->
  get_users g id = map fst (target_inputs g (id, 0%nat)).
Proof.
  intros Hv Hsz. unfold get_users, target_inputs.
  assert (H : Forall (fun cn : nat * node =>
                Forall (fun o : Output => o.1 = id -> o.2 = 0%nat) (n_inputs cn.2))
              (map_to_list g)).
  { apply Forall_forall. intros [c n] Hin. apply elem_of_map_to_list in Hin.
    simpl. eapply Forall_impl; [exact (Hv c n Hin)|].
    intros o Ho Heq. simpl in Ho. rewrite Heq, Hsz in Ho. lia. }
  induction H as [|[c n] l Hcn _ IH]; [reflexivity|].
  simpl in *. rewrite map_app, IH. f_equal.
  rewrite map_map. simpl. unfold uses.
  rewrite <- (slots_reading_length id (n_inputs n) 0 Hcn).
  generalize (slots_reading (id, 0%nat) (n_inputs n) 0).
  intros l'. induction l' as [|x l' IH']; [reflexivity|]. simpl. by f_equal.
Qed.

Lemma match_fq_inv (g : graph) (o d lo hi : Output) :
  match_fq g o = Some (d, lo, hi) ->
  exists n l ab i1 i2,
    g !! o.1 = Some n /\ n_op n = OpFakeQuantize l ab /\
    n_inputs n = [d; i1; i2; lo; hi] /\ consumers_count 1 g o = true.
Proof.
  unfold match_fq. destruct (g !! o.1) as [n|] eqn:Hn; [|discriminate].
  destruct (n_op n) as [| |l ab| | | | | |] eqn:Hop; try discriminate.
  destruct (n_inputs n) as [|d' [|i1 [|i2 [|lo' [|hi' [|]]]]]] eqn:Hin;
    try discriminate.
  destruct (consumers_count 1 g o) eqn:Hc; [|discriminate].
  intros H; inversion H; subst. exists n, l, ab, i1, i2. repeat split; done.
Qed.

Lemma match_operands_inv (g : graph) (root : nat) (a c : Output) (b : binding) :
  match_operands g root a c = Some b ->
  exists d lo hi, match_fq g a = Some (d, lo, hi) /\ match_constant g c = true /\
                  b = Binding d a.1 lo hi c.1 root.
Proof.
  unfold match_operands.
  destruct (match_fq g a) as [[[d lo] hi]|]; [|discriminate].
  destruct (match_constant g c) eqn:Hc; [|discriminate].
  intros H; inversion H; subst. exists d, lo, hi. repeat split; done.
Qed.

(** The shape of a successful match. *)
Lemma match_pattern_inv (g : graph) (root : nat) (b : binding) :
  match_pattern g root = Some b ->
  exists n fq_out c_out d lo hi,
    g !! root = Some n /\ n_op n = OpMultiply /\
    (n_inputs n = [fq_out; c_out] \/ n_inputs n = [c_out; fq_out]) /\
    consumers_count 1 g (root, 0%nat) = true /\
    match_fq g fq_out = Some (d, lo, hi) /\ match_constant g c_out = true /\
    b = Binding d fq_out.1 lo hi c_out.1 root.
Proof.
  unfold match_pattern. destruct (g !! root) as [n|] eqn:Hn; [|discriminate].
  destruct (n_op n) eqn:Hop; try discriminate.
  destruct (n_inputs n) as [|a [|c [|]]] eqn:Hin; try discriminate.
  destruct (consumers_count 1 g (root, 0%nat)) eqn:Hcc; [|discriminate].
  destruct (match_operands g root a c) as [bd|] eqn:E1.
  - intros H; inversion H; subst.
    destruct (match_operands_inv _ _ _ _ _ E1) as (d & lo & hi & H1 & H2 & H3).
    exists n, a, c, d, lo, hi. auto 10.
  - intros E2.
    destruct (match_operands_inv _ _ _ _ _ E2) as (d & lo & hi & H1 & H2 & H3).
    exists n, c, a, d, lo, hi. auto 10.
Qed.

Lemma singleton_of_length {A} (l : list A) (x : A) :
  length l = 1%nat -> x ∈ l -> l = [x].
Proof.
  destruct l as [|y [|z l]]; try discriminate. intros _ Hx.
  apply list_elem_of_singleton in Hx. by subst.
Qed.

Lemma existsb_Permutation {A} (f : A -> bool) (l l' : list A) :
  l ≡ₚ l' -> existsb f l = existsb f l'.
Proof.
  induction 1 as [|x l l' _ IH|x y l|l l' l'' _ IH1 _ IH2]; simpl.
  - reflexivity.
  - by rewrite IH.
  - by destruct (f x), (f y).
  - by rewrite IH1.
Qed.

Lemma normalize_scale_users (g : graph) (c fq : nat) :
  get_users (normalize_scale g c).1.2 fq ≡ₚ get_users g fq.
Proof.
  unfold normalize_scale.
  destruct (decide _) as [|_]; simpl; [reflexivity|].
  destruct (n_op (node_at g c)) as [|t| | | | | | |]; simpl; try reflexivity.
  destruct (get_single_value t) as [v|]; simpl; [|reflexivity].
  rewrite get_users_insert by apply not_elem_of_dom, is_fresh. reflexivity.
Qed.

Lemma normalize_scale_node_at (g : graph) (c k : nat) :
  k ∈ dom g -> node_at (normalize_scale g c).1.2 k = node_at g k.
Proof.
  intros Hk. eapply extends_node_at; [|exact Hk].
  apply (normalize_scale_extends g c).
Qed.

(** C5: on every match the quantize node has exactly one consumer edge,
    held by the matched Multiply; its users are that Multiply alone, so
    no Convolution or GroupConvolution is among them when line 80 reads
    them, and the test of line 86 is false. *)
Theorem convolution_branch_unreachable (g : graph) (root : nat) (b : binding) :
  valid_ports g ->
  match_pattern g root = Some b ->
  b_mul b = root /\
  (exists slot, target_inputs g (b_fq b, 0%nat) = [(root, slot)]) /\
  get_users g (b_fq b) = [root] /\
  (forall u, u ∈ get_users g (b_fq b) -> is_convolution (node_at g u) = false) /\
  fq_output_is_conv (normalize_scale g (b_mul_constant b)).1.2 (b_fq b) = false.
Proof.
  intros Hv Hm.
  destruct (match_pattern_inv g root b Hm)
    as (n & fq_out & c_out & d & lo & hi & Hn & Hop & Hins & _ & Hfq & _ & ->).
  destruct (match_fq_inv g fq_out d lo hi Hfq)
    as (fqn & l & ab & i1 & i2 & Hfqn & Hfqop & _ & Hcc).
  simpl.
  assert (Hat : node_at g fq_out.1 = fqn) by (unfold node_at; by rewrite Hfqn).
  assert (Hsz : output_size (n_op (node_at g fq_out.1)) = 1%nat)
    by (by rewrite Hat, Hfqop).
  assert (Hslot : exists slot, n_inputs n !! slot = Some fq_out).
  { destruct Hins as [-> | ->]; [by exists 0%nat|by exists 1%nat]. }
  destruct Hslot as [slot Hslot].
  assert (Hport : fq_out = (fq_out.1, 0%nat)).
  { pose proof (Hv root n Hn) as Hp. simpl in Hp.
    rewrite Forall_forall in Hp.
    specialize (Hp fq_out (list_elem_of_lookup_2 _ _ _ Hslot)).
    simpl in Hp. rewrite Hsz in Hp. destruct fq_out as [p q]. simpl in *.
    f_equal. lia. }
  assert (Hti : target_inputs g (fq_out.1, 0%nat) = [(root, slot)]).
  { apply singleton_of_length.
    - rewrite <- Hport. unfold consumers_count in Hcc. by apply Nat.eqb_eq in Hcc.
    - rewrite <- Hport. by eapply target_inputs_elem. }
  assert (Hu : get_users g fq_out.1 = [root]).
  { rewrite (get_users_target_inputs g _ Hv Hsz), Hti. reflexivity. }
  assert (Hroot : is_convolution (node_at g root) = false).
  { unfold node_at, is_convolution. rewrite Hn. simpl. by rewrite Hop. }
  split; [reflexivity|]. split; [by exists slot|]. split; [exact Hu|]. split.
  - intros u. rewrite Hu. intros ->%list_elem_of_singleton. exact Hroot.
  - unfold fq_output_is_conv.
    rewrite (existsb_Permutation _ _ _ (normalize_scale_users g c_out.1 fq_out.1)).
    rewrite Hu. simpl. rewrite normalize_scale_node_at, Hroot; [reflexivity|].
    apply elem_of_dom. by exists n.
Qed.

Lemma convolution_branch_unreachable_witness :
  get_users g_accept 5 = [7%nat] /\
  fq_output_is_conv (normalize_scale g_accept 6).1.2 5 = false.
Proof.
  assert (Hv : valid_ports g_accept).
  { apply (bool_decide_unpack _). vm_compute. exact I. }
  destruct (convolution_branch_unreachable g_accept 7%nat fusion_binding Hv eq_refl)
    as (_ & _ & Hu & _ & Hc).
  split; [exact Hu|exact Hc].
Defined.

(** ** The replacement node *)

Section Replacement.

Variable infer : graph -> op_kind -> list Output -> element_type * partial_shape.
Lemma build_replacement_inv (g : graph) (b : binding) (mc : nat)
    (new_fq : nat) (g3 : graph) (ts3 : list nat) :
  build_replacement infer g b mc = Some (new_fq, g3, ts3) ->
  exists i0 i1 i2 rest low g1 high g2,
    n_inputs (node_at g (b_fq b)) = i0 :: i1 :: i2 :: rest /\
    get_adjusted_output_range infer g mc (b_out_low b) = (low, g1) /\
    get_adjusted_output_range infer g1 mc (b_out_high b) = (high, g2) /\
    g2 !! new_fq = None /\
    g3 = <[new_fq :=
             mk_node (n_op (node_at g (b_fq b)))
               [i0; i1; i2; (low, 0%nat); (high, 0%nat)]
               (infer g2 (n_op (node_at g (b_fq b)))
                      [i0; i1; i2; (low, 0%nat); (high, 0%nat)]).1
               (infer g2 (n_op (node_at g (b_fq b)))
                      [i0; i1; i2; (low, 0%nat); (high, 0%nat)]).2]> g2 /\
    ts3 = [new_fq; high; low].
Proof.
  unfold build_replacement.
  destruct (n_inputs (node_at g (b_fq b))) as [|i0 [|i1 [|i2 rest]]] eqn:Hin;
    try discriminate.
  destruct (get_adjusted_output_range infer g mc (b_out_low b)) as [low g1] eqn:E1.
  destruct (get_adjusted_output_range infer g1 mc (b_out_high b)) as [high g2] eqn:E2.
  unfold make_node, alloc. intros H; inversion H; subst; clear H.
  exists i0, i1, i2, rest, low, g1, high, g2.
  repeat split; try done. apply not_elem_of_dom, is_fresh.
Qed.

(** Where a ready replacement comes from: the scale [mc] settled in an
    arena [gs] on top of the initial one, and the replacement built
    from there. *)
Lemma prepare_ready_inv (g : graph) (b : binding) (new_fq : nat) (g3 : graph)
    (ts : list nat) :
  closed g -> bound g b ->
  prepare infer g b = PrepReady new_fq g3 ts ->
  exists gs mc ts0 ts3,
    extends g ts0 gs /\ mc ∈ dom gs /\
    build_replacement infer gs b mc = Some (new_fq, g3, ts3) /\
    ts = ts3 ++ ts0.
Proof.
  intros Hc Hb. unfold prepare.
  destruct (normalize_scale_extends g (b_mul_constant b)) as [E1 Hmc].
  destruct (normalize_scale g (b_mul_constant b))
    as [[[[single mc] shape] g1] ts1]. simpl in E1, Hmc.
  assert (Hmc1 : mc ∈ dom g1) by (apply Hmc, Hb).
  unfold build_with_scale. destruct single.
  - destruct (build_replacement infer g1 b mc) as [[[nf g3'] ts3]|] eqn:E;
      [|discriminate].
    intros H; inversion H; subst. by exists g1, mc, ts1, ts3.
  - destruct (align_scale infer g1 (b_data b) (b_fq b) mc shape)
      as [| |mc' g2 ts2] eqn:E2; try discriminate.
    destruct (align_scale_extends infer g1 _ _ _ _ _ _ _ E2 Hmc1) as [E3 Hmc2].
    destruct (build_replacement infer g2 b mc') as [[[nf g3'] ts3]|] eqn:E;
      [|discriminate].
    intros H; inversion H; subst.
    exists g2, mc', (ts2 ++ ts1), ts3.
    repeat split; try done. by eapply extends_trans.
Qed.

(** The replacement is a clone of the quantize node: same kind, same
    attributes, hence the same broadcast policy. *)
Lemma prepare_ready_op (g : graph) (b : binding) (new_fq : nat) (g3 : graph)
    (ts : list nat) :
  closed g -> bound g b ->
  prepare infer g b = PrepReady new_fq g3 ts ->
  n_op (node_at g3 new_fq) = n_op (node_at g (b_fq b)).
Proof.
  intros Hc Hb Hp.
  destruct (prepare_ready_inv g b new_fq g3 ts Hc Hb Hp)
    as (gs & mc & ts0 & ts3 & He & _ & Hbuild & _).
  destruct (build_replacement_inv gs b mc new_fq g3 ts3 Hbuild)
    as (i0 & i1 & i2 & rest & low & g1 & high & g2 & _ & _ & _ & _ & -> & _).
  unfold node_at at 1. rewrite lookup_insert_eq. simpl.
  f_equal. eapply extends_node_at; [exact He|apply Hb].
Qed.

Lemma prepare_ready_node_at (g : graph) (b : binding) (new_fq : nat)
    (g3 : graph) (ts : list nat) (k : nat) :
  closed g -> bound g b ->
  prepare infer g b = PrepReady new_fq g3 ts ->
  k ∈ dom g -> node_at g3 k = node_at g k.
Proof.
  intros Hc Hb Hp Hk. pose proof (prepare_extends infer g b Hc Hb) as He.
  rewrite Hp in He. simpl in He. by eapply extends_node_at.
Qed.


Variable transformation_callback : graph -> nat -> bool.


End Replacement.



(** ** The acceptance hook (lines 118-120) *)

Section Hook.

Variable infer : graph -> op_kind -> list Output -> element_type * partial_shape.
Variable transformation_callback : graph -> nat -> bool.


End Hook.


(** ** The commit (lines 143-146) *)

Lemma match_bound (g : graph) (root : nat) (b : binding) :
  closed g -> match_pattern g root = Some b -> bound g b.
Proof.
  intros Hc Hm.
  destruct (match_pattern_inv g root b Hm)
    as (n & fq_out & c_out & d & lo & hi & Hn & _ & _ & _ & Hfq & Hcst & ->).
  destruct (match_fq_inv g fq_out d lo hi Hfq)
    as (fqn & l & ab & i1 & i2 & Hfqn & _ & Hins & _).
  pose proof (Hc _ _ Hfqn) as Hcl. unfold closed_node in Hcl.
  rewrite Hins in Hcl. rewrite !Forall_cons in Hcl.
  destruct Hcl as (Hd & _ & _ & Hlo & Hhi & _).
  unfold match_constant in Hcst.
  destruct (g !! c_out.1) as [cn|] eqn:Hcn; [|discriminate].
  repeat split; simpl; try done; apply elem_of_dom; eauto.
Qed.

Lemma extends_temps (g0 g : graph) (ts : list nat) (t : nat) :
  extends g0 ts g -> t ∈ ts -> t ∈ dom g /\ t ∉ dom g0.
Proof.
  intros He. induction He as [|ts g id n He IH Hid _]; [by intros ?%elem_of_nil|].
  rewrite dom_insert_L. intros [->|Ht]%elem_of_cons.
  - split; [apply elem_of_union_l, elem_of_singleton; reflexivity|].
    intros Hin. apply (extends_dom _ _ _ _ He), elem_of_dom in Hin.
    rewrite Hid in Hin. by destruct Hin.
  - destruct (IH Ht) as [H1 H2]. split; [by apply elem_of_union_r|exact H2].
Qed.


Lemma release_cons (t : nat) (ts : list nat) (g : graph) :
  release (t :: ts) g = release ts (drop g t).
Proof. reflexivity. Qed.


Lemma get_users_nonempty (g : graph) (c id : nat) (m : node) :
  g !! c = Some m -> (0 < uses id m)%nat -> get_users g id <> [].
Proof.
  intros Hc Hu Hnil. unfold get_users in Hnil.
  assert (Hin : In c (flat_map (fun cn : nat * node => replicate (uses id cn.2) cn.1)
                        (map_to_list g))).
  { apply in_flat_map. exists (c, m). split.
    - apply list_elem_of_In. by apply elem_of_map_to_list.
    - simpl. destruct (uses id m); [lia|]. by left. }
  rewrite Hnil in Hin. destruct Hin.
Qed.






Lemma node_at_insert_ne (g : graph) (id k : nat) (n : node) :
  k <> id -> node_at (<[id := n]> g) k = node_at g k.
Proof. intros Hne. unfold node_at. by rewrite lookup_insert_ne. Qed.

Lemma node_at_insert_eq (g : graph) (id : nat) (n : node) :
  node_at (<[id := n]> g) id = n.
Proof. unfold node_at. by rewrite lookup_insert_eq. Qed.





Section Commit.

Variable infer : graph -> op_kind -> list Output -> element_type * partial_shape.
Variable transformation_callback : graph -> nat -> bool.



End Commit.


(** ** Constant folding of the adjusted ranges (lines 104-111) *)




Lemma constant_value_S (k : nat) (g : graph) (o : Output) :
  constant_value (S k) g o
  = match n_op (node_at g o.1), n_inputs (node_at g o.1) with
    | OpConstant t, _ => Some t
    | OpMultiply, [a; b] =>
        match constant_value k g a, constant_value k g b with
        | Some ta, Some tb => broadcast_mul ta tb
        | _, _ => None
        end
    | OpReshape _, [a; p] =>
        match constant_value k g a, constant_value k g p with
        | Some ta, Some tp => Some (reshape_value ta tp)
        | _, _ => None
        end
    | _, _ => None
    end.
Proof. reflexivity. Qed.

Section Folding.

Variable infer : graph -> op_kind -> list Output -> element_type * partial_shape.



End Folding.

Lemma drop_lookup_Some (g : graph) (id k : nat) (m : node) :
  drop g id !! k = Some m -> g !! k = Some m.
Proof.
  unfold drop. destruct (get_users g id); [|done].
  intros H. apply lookup_delete_Some in H. by destruct H.
Qed.

Lemma release_lookup_Some (ts : list nat) (g : graph) (k : nat) (m : node) :
  release ts g !! k = Some m -> g !! k = Some m.
Proof.
  revert g. induction ts as [|t ts IH]; intros g; [done|].
  rewrite release_cons. intros H. by eapply drop_lookup_Some, IH.
Qed.


Section FoldedRanges.

Variable infer : graph -> op_kind -> list Output -> element_type * partial_shape.
Variable transformation_callback : graph -> nat -> bool.

Lemma committed_graph (g : graph) (b : binding) (new_fq : nat) (g3 : graph)
    (ts : list nat) :
  out_result (callback infer transformation_callback g b) = Returned true ->
  prepare infer g b = PrepReady new_fq g3 ts ->
  out_graph (callback infer transformation_callback g b)
    = release ts (commit g3 (b_fq b) (b_mul b) new_fq).
Proof.
  unfold callback. intros Hres Hp. rewrite Hp in *.
  unfold decide_rewrite in *.
  destruct (negb _ && _); [discriminate|].
  by destruct (shape_check_passes _ _).
Qed.

(** Every invocation either commits - the graph is the committed arena
    after scope exit - or leaves the graph it was called on. *)
Lemma callback_commit_or_unchanged (g : graph) (b : binding) :
  closed g -> bound g b ->
  (out_result (callback infer transformation_callback g b) = Returned true /\
   exists new_fq g3 ts,
     prepare infer g b = PrepReady new_fq g3 ts /\
     out_graph (callback infer transformation_callback g b)
       = release ts (commit g3 (b_fq b) (b_mul b) new_fq)) \/
  (out_result (callback infer transformation_callback g b) <> Returned true /\
   out_graph (callback infer transformation_callback g b) = g).
Proof.
  intros Hc Hb.
  destruct (out_result (callback infer transformation_callback g b))
    as [[|]|] eqn:Hres.
  - left. split; [reflexivity|].
    destruct (prepare infer g b) as [g1 ts|g1 ts|new_fq g3 ts] eqn:Hp.
    + unfold callback in Hres. rewrite Hp in Hres. discriminate.
    + unfold callback in Hres. rewrite Hp in Hres. discriminate.
    + exists new_fq, g3, ts. split; [reflexivity|]. by apply committed_graph.
  - right. split; [discriminate|].
    apply callback_rejected_unchanged; [exact Hc|exact Hb|]. by rewrite Hres.
  - right. split; [discriminate|].
    apply callback_rejected_unchanged; [exact Hc|exact Hb|]. by rewrite Hres.
Qed.


End FoldedRanges.


(** * Further properties of the callback *)

(** ** Which way the scale takes through lines 62-102 *)

Lemma single_valued_normalize (g : graph) (c : nat) :
  multi_valued (node_at g c) = false ->
  (normalize_scale g c).1.1.1.1 = true.
Proof.
  unfold multi_valued, normalize_scale. intros H.
  destruct (decide _) as [|Hne]; [reflexivity|].
  rewrite bool_decide_eq_false_2 in H by done. simpl in H.
  destruct (n_op (node_at g c)) as [|t| | | | | | |]; try discriminate.
  apply bool_decide_eq_false in H.
  destruct (get_single_value t); [reflexivity|]. by destruct H.
Qed.


Lemma fq_inputs_in_arena (g : graph) (fq : nat) :
  (3 <= length (n_inputs (node_at g fq)))%nat -> fq ∈ dom g.
Proof.
  unfold node_at. intros H. apply elem_of_dom.
  destruct (g !! fq) as [n|]; [by exists n|]. simpl in H. lia.
Qed.

Section ScalePaths.

Variable infer : graph -> op_kind -> list Output -> element_type * partial_shape.

Lemma build_with_scale_ready (g0 g : graph) (ts0 : list nat) (b : binding)
    (mc : nat) (ts : list nat) :
  extends g0 ts0 g ->
  (3 <= length (n_inputs (node_at g0 (b_fq b))))%nat ->
  exists new_fq g3 ts', build_with_scale infer g b mc ts = PrepReady new_fq g3 ts'.
Proof.
  intros He Hlen. unfold build_with_scale, build_replacement.
  rewrite (extends_node_at g0 g ts0 (b_fq b) He)
    by (by apply fq_inputs_in_arena).
  destruct (n_inputs (node_at g0 (b_fq b))) as [|i0 [|i1 [|i2 rest]]];
    simpl in Hlen; try lia.
  destruct (get_adjusted_output_range infer g mc (b_out_low b)) as [low g1].
  destruct (get_adjusted_output_range infer g1 mc (b_out_high b)) as [high g2].
  destruct (make_node infer g2 _ _) as [nf g3]. by eexists _, _, _.
Qed.

(** A single-value scale is never stopped by the Convolution guard or
    by the rank guard, and never takes the size_t difference: whatever
    the users of the quantize node and the rank of the data, the
    replacement is built and the outcome is left to the hook and the
    shape re-check. *)
Theorem single_value_scale_skips_guards (g : graph) (b : binding) :
  multi_valued (node_at g (b_mul_constant b)) = false ->
  (3 <= length (n_inputs (node_at g (b_fq b))))%nat ->
  exists new_fq g3 ts, prepare infer g b = PrepReady new_fq g3 ts.
Proof.
  intros Hs Hlen. unfold prepare.
  pose proof (single_valued_normalize g _ Hs) as Hn.
  destruct (normalize_scale_extends g (b_mul_constant b)) as [He _].
  destruct (normalize_scale g (b_mul_constant b))
    as [[[[single mc] shape] g1] ts]. simpl in *. subst single.
  by eapply build_with_scale_ready.
Qed.

End ScalePaths.

Lemma single_value_scale_skips_guards_witness :
  exists new_fq g3 ts,
    prepare ngraph_infer g_conv_scalar fusion_binding = PrepReady new_fq g3 ts.
Proof.
  apply (single_value_scale_skips_guards ngraph_infer g_conv_scalar
           fusion_binding).
  - reflexivity.
  - vm_compute. lia.
Defined.

(** ** When an exception leaves the callback *)

Section Exceptions.

Variable infer : graph -> op_kind -> list Output -> element_type * partial_shape.
Variable transformation_callback : graph -> nat -> bool.





End Exceptions.


(** ** Left-padding of a multi-valued scale (lines 93-101) *)

Lemma shape_size_pad (k : nat) (s : Shape) :
  shape_size (replicate k 1%nat ++ s) = shape_size s.
Proof.
  induction k as [|k IH]; [reflexivity|].
  simpl. rewrite Nat.add_0_r. exact IH.
Qed.

Section Padding.

Variable infer : graph -> op_kind -> list Output -> element_type * partial_shape.

(** When the guards let a multi-valued scale through and its rank does
    not exceed the rank of the data: a scale of the rank of the data is
    used as it is and nothing is built; a scale of smaller rank is read
    through a Reshape (special_zero false) whose pattern is a fresh i64
    constant holding the shape of the scale with 1-axes in front.  The
    padded shape has the rank of the data and as many elements as the
    scale. *)
Theorem align_scale_pads (g : graph) (data : Output) (fq mc : nat)
    (shape : Shape) (r : nat) :
  fq_output_is_conv g fq = false ->
  pshape_rank (output_pshape (node_at g data.1)) = Some r ->
  (length shape <= r)%nat ->
  Z.of_nat r <= vector_max_size ->
  (length shape = r -> align_scale infer g data fq mc shape = GuardPass mc g []) /\
  ((length shape < r)%nat ->
   let shape' := replicate (r - length shape) 1%nat ++ shape in
   exists p rs ty ps,
     g !! p = None /\ g !! rs = None /\ rs <> p /\
     align_scale infer g data fq mc shape
       = GuardPass rs
           (<[rs := mk_node (OpReshape false) [(mc, 0%nat); (p, 0%nat)] ty ps]>
              (<[p := constant_node (shape_constant shape')]> g))
           [rs; p] /\
     shape_constant shape'
       = Tensor i64 [r] (map (fun d => SInt (Z.of_nat d)) shape') /\
     shape_size shape' = shape_size shape).
Proof.
  intros Hconv Hrank Hle Hmax. unfold align_scale, vector_max_size in *.
  rewrite Hconv, Hrank. cbv zeta.
  rewrite Z.mod_small by lia.
  set (diff := Z.of_nat r - Z.of_nat (length shape)).
  split.
  - intros Heq. assert (H0 : (0 <? diff) = false) by (apply Z.ltb_ge; lia).
    by rewrite H0.
  - intros Hlt.
    assert (H0 : (0 <? diff) = true) by (apply Z.ltb_lt; lia).
    assert (H1 : (2 ^ 60 - 1 - Z.of_nat (length shape) <? diff) = false)
      by (apply Z.ltb_ge; lia).
    assert (Hd : Z.to_nat diff = (r - length shape)%nat) by lia.
    rewrite H0, H1, Hd. unfold make_node, alloc. cbv beta iota zeta.
    set (shape' := replicate (r - length shape) 1%nat ++ shape).
    set (p := fresh (dom g)).
    set (g1 := <[p := constant_node (shape_constant shape')]> g).
    set (rs := fresh (dom g1)).
    assert (Hp : g !! p = None) by apply not_elem_of_dom, is_fresh.
    assert (Hrs : g1 !! rs = None) by apply not_elem_of_dom, is_fresh.
    assert (Hne : rs <> p).
    { intros Heq. rewrite Heq in Hrs. unfold g1 in Hrs.
      by rewrite lookup_insert_eq in Hrs. }
    eexists p, rs, _, _. split; [exact Hp|]. split.
    { unfold g1 in Hrs. by rewrite lookup_insert_ne in Hrs. }
    split; [exact Hne|]. split; [reflexivity|]. split.
    + unfold shape_constant. f_equal. f_equal. unfold shape'.
      rewrite length_app, length_replicate. lia.
    + apply shape_size_pad.
Qed.

End Padding.

Lemma align_scale_pads_witness :
  exists p rs ty ps,
    align_scale ngraph_infer g_pad (0, 0)%nat 5 6 [3; 1; 1]%nat
      = GuardPass rs
          (<[rs := mk_node (OpReshape false) [(6, 0); (p, 0)]%nat ty ps]>
             (<[p := constant_node (shape_constant [1; 3; 1; 1]%nat)]> g_pad))
          [rs; p].
Proof.
  destruct (align_scale_pads ngraph_infer g_pad (0, 0)%nat 5 6 [3; 1; 1]%nat 4)
    as [_ H].
  - reflexivity.
  - reflexivity.
  - simpl. lia.
  - vm_compute. discriminate.
  - destruct H as (p & rs & ty & ps & _ & _ & _ & Ha & _); [simpl; lia|].
    by exists p, rs, ty, ps.
Defined.

(** ** The pattern (lines 42-52) *)

Lemma match_fq_intro (g : graph) (o : Output) (fqn : node) (l : nat)
    (ab : auto_broadcast_type) (d i1 i2 lo hi : Output) :
  g !! o.1 = Some fqn -> n_op fqn = OpFakeQuantize l ab ->
  n_inputs fqn = [d; i1; i2; lo; hi] -> consumers_count 1 g o = true ->
  match_fq g o = Some (d, lo, hi).
Proof.
  intros Hn Hop Hin Hcc. unfold match_fq. by rewrite Hn, Hop, Hin, Hcc.
Qed.

Lemma match_fq_constant (g : graph) (o : Output) (cn : node) :
  g !! o.1 = Some cn -> is_constant cn = true -> match_fq g o = None.
Proof.
  intros Hn Hc. unfold match_fq. rewrite Hn.
  unfold is_constant in Hc. by destruct (n_op cn).
Qed.

(** What matches, exactly: the root is a Multiply with one consumer
    edge whose two operands are, in either order, the output of a
    FakeQuantize with five inputs and one consumer edge, and the output
    of a Constant.  The binding names the data and the two output-range
    inputs of that FakeQuantize. *)
Theorem match_pattern_iff (g : graph) (root : nat) (b : binding) :
  match_pattern g root = Some b <->
  exists n fqn cn l ab i1 i2 pf pc,
    g !! root = Some n /\ n_op n = OpMultiply /\
    (n_inputs n = [(b_fq b, pf); (b_mul_constant b, pc)] \/
     n_inputs n = [(b_mul_constant b, pc); (b_fq b, pf)]) /\
    consumers_count 1 g (root, 0%nat) = true /\
    g !! b_fq b = Some fqn /\ n_op fqn = OpFakeQuantize l ab /\
    n_inputs fqn = [b_data b; i1; i2; b_out_low b; b_out_high b] /\
    consumers_count 1 g (b_fq b, pf) = true /\
    g !! b_mul_constant b = Some cn /\ is_constant cn = true /\
    b_mul b = root.
Proof.
  split.
  - intros Hm.
    destruct (match_pattern_inv g root b Hm)
      as (n & [fq pf] & [c pc] & d & lo & hi & Hn & Hop & Hins & Hcc & Hfq
          & Hcst & ->).
    destruct (match_fq_inv g (fq, pf) d lo hi Hfq)
      as (fqn & l & ab & i1 & i2 & Hfqn & Hfqop & Hfqin & Hfqcc).
    unfold match_constant in Hcst. simpl in *.
    destruct (g !! c) as [cn|] eqn:Hcn; [|discriminate].
    exists n, fqn, cn, l, ab, i1, i2, pf, pc. simpl. repeat split; done.
  - intros (n & fqn & cn & l & ab & i1 & i2 & pf & pc & Hn & Hop & Hins & Hcc
            & Hfqn & Hfqop & Hfqin & Hfqcc & Hcn & Hcst & Hroot).
    destruct b as [d fq lo hi c mul]. simpl in *. subst mul.
    assert (Hfq : match_fq g (fq, pf) = Some (d, lo, hi))
      by (by eapply match_fq_intro).
    assert (Hc : match_constant g (c, pc) = true).
    { unfold match_constant. simpl. by rewrite Hcn. }
    unfold match_pattern. rewrite Hn, Hop.
    destruct Hins as [-> | ->]; rewrite Hcc.
    + unfold match_operands. by rewrite Hfq, Hc.
    + unfold match_operands at 1.
      rewrite (match_fq_constant g (c, pc) cn Hcn Hcst).
      unfold match_operands. by rewrite Hfq, Hc.
Qed.

Lemma match_pattern_iff_witness :
  match_pattern g_accept 7 = Some fusion_binding.
Proof.
  apply (match_pattern_iff g_accept 7%nat fusion_binding).
  exists (node_at g_accept 7), (node_at g_accept 5), (node_at g_accept 6),
    256%nat, AB_NUMPY, (1, 0)%nat, (2, 0)%nat, 0%nat, 0%nat.
  repeat split; try reflexivity. left. reflexivity.
Defined.

(** ** The arena after the callback *)

Lemma uses_zero_inv (id : nat) (n : node) :
  uses id n = 0%nat -> Forall (fun o : Output => o.1 <> id) (n_inputs n).
Proof.
  unfold uses. generalize (n_inputs n). intros ins.
  induction ins as [|x ins IH]; [constructor|].
  rewrite filter_cons. destruct (decide (x.1 = id)); [discriminate|].
  intros H. constructor; [done|by apply IH].
Qed.

Lemma get_users_nil_inv (g : graph) (id k : nat) (n : node) :
  get_users g id = [] -> g !! k = Some n -> uses id n = 0%nat.
Proof.
  intros Hu Hk. destruct (uses id n) as [|u] eqn:Hn; [reflexivity|].
  exfalso. eapply (get_users_nonempty g k id n); [exact Hk|lia|exact Hu].
Qed.

Lemma get_users_nil (g : graph) (id : nat) :
  (forall k n, g !! k = Some n -> uses id n = 0%nat) -> get_users g id = [].
Proof.
  intros H. unfold get_users.
  assert (HF : Forall (fun cn : nat * node => uses id cn.2 = 0%nat) (map_to_list g)).
  { apply Forall_forall. intros [c n] Hin.
    apply elem_of_map_to_list in Hin. exact (H c n Hin). }
  induction HF as [|cn l Hcn _ IH]; [reflexivity|].
  simpl. rewrite Hcn. exact IH.
Qed.

Lemma slots_reading_nil (id p : nat) (ins : list Output) (k : nat) :
  Forall (fun o : Output => o.1 <> id) ins -> slots_reading (id, p) ins k = [].
Proof.
  intros H. revert k. induction H as [|x ins Hx _ IH]; intros k; [reflexivity|].
  simpl. destruct (decide (x = (id, p))) as [->|_]; [done|]. apply IH.
Qed.

Lemma target_inputs_nil (g : graph) (id p : nat) :
  (forall k n, g !! k = Some n -> uses id n = 0%nat) ->
  target_inputs g (id, p) = [].
Proof.
  intros H. unfold target_inputs.
  assert (HF : Forall (fun cn : nat * node => uses id cn.2 = 0%nat) (map_to_list g)).
  { apply Forall_forall. intros [c n] Hin.
    apply elem_of_map_to_list in Hin. exact (H c n Hin). }
  induction HF as [|cn l Hcn _ IH]; [reflexivity|].
  simpl. rewrite (slots_reading_nil id p _ 0 (uses_zero_inv id _ Hcn)). exact IH.
Qed.

Lemma drop_closed (g : graph) (id : nat) : closed g -> closed (drop g id).
Proof.
  intros Hc. unfold drop. destruct (get_users g id) eqn:Hu; [|exact Hc].
  intros k n Hk. apply lookup_delete_Some in Hk as [Hne Hk].
  pose proof (uses_zero_inv id n (get_users_nil_inv g id k n Hu Hk)) as Hno.
  pose proof (Hc k n Hk) as Hcl. unfold closed_node in *.
  rewrite Forall_forall in Hcl, Hno. apply Forall_forall. intros o Ho.
  rewrite dom_delete_L. apply elem_of_difference. split; [by apply Hcl|].
  intros Heq%elem_of_singleton. by apply (Hno o Ho).
Qed.

Lemma release_closed (ts : list nat) (g : graph) :
  closed g -> closed (release ts g).
Proof.
  revert g. induction ts as [|t ts IH]; intros g Hc; [exact Hc|].
  rewrite release_cons. by apply IH, drop_closed.
Qed.

(** The inputs of a node of the committed arena: those it had, with
    the reads of the Multiply redirected. *)
Lemma commit_inputs (g3 : graph) (fq mul new_fq k : nat) (m : node) :
  commit g3 fq mul new_fq !! k = Some m ->
  exists m0, g3 !! k = Some m0 /\ n_inputs m = n_inputs (redirect mul new_fq m0).
Proof.
  unfold commit, copy_runtime_info, set_friendly_name, replace_node.
  destruct (decide (k = new_fq)) as [->|Hne].
  - rewrite !lookup_alter_eq, lookup_fmap.
    destruct (g3 !! new_fq) as [m0|]; [|discriminate].
    simpl. intros H; inversion H; subst. by exists m0.
  - rewrite !lookup_alter_ne by done. rewrite lookup_fmap.
    destruct (g3 !! k) as [m0|]; [|discriminate].
    simpl. intros H; inversion H; subst. by exists m0.
Qed.

Lemma commit_dom (g3 : graph) (fq mul new_fq : nat) :
  dom (commit g3 fq mul new_fq) = dom g3.
Proof.
  unfold commit, copy_runtime_info, set_friendly_name, replace_node.
  apply set_eq. intros k. rewrite !elem_of_dom.
  destruct (decide (k = new_fq)) as [->|Hne].
  - rewrite !lookup_alter_eq, lookup_fmap. by rewrite !fmap_is_Some.
  - rewrite !lookup_alter_ne by done. by rewrite lookup_fmap, fmap_is_Some.
Qed.

Lemma commit_closed (g3 : graph) (fq mul new_fq : nat) :
  closed g3 -> new_fq ∈ dom g3 -> closed (commit g3 fq mul new_fq).
Proof.
  intros Hc Hnew k m Hk.
  destruct (commit_inputs g3 fq mul new_fq k m Hk) as (m0 & Hm0 & Hins).
  pose proof (Hc k m0 Hm0) as Hcl. unfold closed_node in *.
  rewrite Hins, commit_dom. simpl.
  apply Forall_forall. intros o Ho. apply list_elem_of_fmap in Ho as (x & -> & Hx).
  rewrite Forall_forall in Hcl.
  destruct (decide (x.1 = mul)); simpl; [exact Hnew|by apply Hcl].
Qed.

Lemma uses_redirect_old (old new : nat) (m : node) :
  new <> old -> uses old (redirect old new m) = 0%nat.
Proof.
  intros Hne. unfold uses, redirect. simpl. generalize (n_inputs m). intros ins.
  induction ins as [|x ins IH]; [reflexivity|].
  rewrite map_cons, filter_cons.
  destruct (decide (x.1 = old)) as [Heq|Hx]; simpl.
  - destruct (decide (new = old)); [done|exact IH].
  - destruct (decide (x.1 = old)); [done|exact IH].
Qed.

Section ArenaAfter.

Variable infer : graph -> op_kind -> list Output -> element_type * partial_shape.
Variable transformation_callback : graph -> nat -> bool.

Lemma prepare_ready_new (g : graph) (b : binding) (new_fq : nat) (g3 : graph)
    (ts : list nat) :
  closed g -> bound g b ->
  prepare infer g b = PrepReady new_fq g3 ts ->
  new_fq ∈ dom g3 /\ (new_fq ∉ dom g) /\ closed g3.
Proof.
  intros Hc Hb Hp. pose proof (prepare_extends infer g b Hc Hb) as He.
  rewrite Hp in He. simpl in He.
  destruct (prepare_ready_inv infer g b new_fq g3 ts Hc Hb Hp)
    as (gs & mc & ts0 & ts3 & _ & _ & Hbuild & ->).
  destruct (build_replacement_inv infer gs b mc new_fq g3 ts3 Hbuild)
    as (i0 & i1 & i2 & rest & low & g1 & high & g2 & _ & _ & _ & _ & _ & ->).
  destruct (extends_temps g g3 _ new_fq He) as [H1 H2];
    [apply list_elem_of_here|].
  split; [exact H1|]. split; [exact H2|]. by eapply extends_closed.
Qed.

(** The callback never leaves a dangling input: if every input of the
    arena is produced by a node of the arena before the invocation, the
    same holds after it, whether it commits, rejects or throws. *)
Theorem callback_preserves_closed (g : graph) (b : binding) :
  closed g -> bound g b ->
  closed (out_graph (callback infer transformation_callback g b)).
Proof.
  intros Hc Hb.
  assert (Hcase : out_result (callback infer transformation_callback g b)
                  = Returned true \/
                  out_result (callback infer transformation_callback g b)
                  <> Returned true).
  { destruct (out_result _) as [[|]|]; [by left|by right|by right]. }
  destruct Hcase as [Hres|Hres].
  - destruct (prepare infer g b) as [g1 ts|g1 ts|new_fq g3 ts] eqn:Hp;
      try (unfold callback in Hres; rewrite Hp in Hres; discriminate).
    rewrite (committed_graph infer transformation_callback g b new_fq g3 ts
               Hres Hp).
    destruct (prepare_ready_new g b new_fq g3 ts Hc Hb Hp) as (Hn & _ & Hc3).
    by apply release_closed, commit_closed.
  - by rewrite callback_rejected_unchanged.
Qed.

(** After a committed rewrite on a match nothing reads the Multiply any
    more, and the pattern does not match at its root again. *)
Theorem committed_multiply_is_dead (g : graph) (root : nat) (b : binding) :
  closed g ->
  match_pattern g root = Some b ->
  out_result (callback infer transformation_callback g b) = Returned true ->
  get_users (out_graph (callback infer transformation_callback g b)) root = [] /\
  match_pattern (out_graph (callback infer transformation_callback g b)) root
    = None.
Proof.
  intros Hc Hm Hres. pose proof (match_bound g root b Hc Hm) as Hb.
  assert (Hmul : b_mul b = root).
  { destruct (match_pattern_inv g root b Hm)
      as (? & ? & ? & ? & ? & ? & _ & _ & _ & _ & _ & _ & ->). reflexivity. }
  destruct (prepare infer g b) as [g1 ts|g1 ts|new_fq g3 ts] eqn:Hp;
    try (unfold callback in Hres; rewrite Hp in Hres; discriminate).
  rewrite (committed_graph infer transformation_callback g b new_fq g3 ts
             Hres Hp).
  destruct (prepare_ready_new g b new_fq g3 ts Hc Hb Hp) as (_ & Hnew & _).
  assert (Hne : new_fq <> root).
  { intros ->. apply Hnew. rewrite <- Hmul. apply Hb. }
  assert (Hdead : forall k n,
            release ts (commit g3 (b_fq b) (b_mul b) new_fq) !! k = Some n ->
            uses root n = 0%nat).
  { intros k n Hk. apply release_lookup_Some in Hk.
    destruct (commit_inputs _ _ _ _ _ _ Hk) as (m0 & _ & Hins).
    unfold uses. rewrite Hins, Hmul.
    exact (uses_redirect_old root new_fq m0 Hne). }
  split; [by apply get_users_nil|].
  unfold match_pattern.
  destruct (_ !! root) as [n|]; [|reflexivity].
  destruct (n_op n); try reflexivity.
  destruct (n_inputs n) as [|x [|y [|]]]; try reflexivity.
  unfold consumers_count. by rewrite (target_inputs_nil _ root 0 Hdead).
Qed.

End ArenaAfter.

Lemma callback_preserves_closed_witness :
  closed (out_graph (callback ngraph_infer never_veto g_accept fusion_binding)).
Proof.
  apply (callback_preserves_closed ngraph_infer never_veto g_accept
           fusion_binding);
    apply (bool_decide_unpack _); vm_compute; exact I.
Defined.

Lemma committed_multiply_is_dead_witness :
  match_pattern
    (out_graph (callback ngraph_infer never_veto g_accept fusion_binding)) 7
    = None.
Proof.
  apply (committed_multiply_is_dead ngraph_infer never_veto g_accept 7%nat
           fusion_binding).
  - apply (bool_decide_unpack _). vm_compute. exact I.
  - reflexivity.
  - reflexivity.
Defined.

Lemma callback_commit_or_unchanged_witness :
  out_result (callback ngraph_infer always_veto g_accept fusion_binding)
    <> Returned true /\
  out_graph (callback ngraph_infer always_veto g_accept fusion_binding)
    = g_accept.
Proof.
  assert (Hc : closed g_accept /\ bound g_accept fusion_binding).
  { split; apply (bool_decide_unpack _); vm_compute; exact I. }
  destruct (callback_commit_or_unchanged ngraph_infer always_veto g_accept
              fusion_binding (proj1 Hc) (proj2 Hc)) as [[H _]|H].
  - vm_compute in H. discriminate.
  - exact H.
Defined.

(** ** The replacement node and its range inputs (lines 104-117) *)

Section ReplacementShape.

Variable infer : graph -> op_kind -> list Output -> element_type * partial_shape.

(** The replacement is a fresh clone of the quantize node: the same
    kind with the same levels and broadcast policy, five inputs of which
    the first three (data, input low, input high) are those of the
    quantize node, and the last two are port 0 of nodes built by the
    callback.  It starts without a friendly name and without metadata. *)
Theorem replacement_clones_quantize (g : graph) (b : binding) (new_fq : nat)
    (g3 : graph) (ts : list nat) :
  closed g -> bound g b ->
  prepare infer g b = PrepReady new_fq g3 ts ->
  g !! new_fq = None /\
  n_op (node_at g3 new_fq) = n_op (node_at g (b_fq b)) /\
  length (n_inputs (node_at g3 new_fq)) = 5%nat /\
  (forall i, (i < 3)%nat ->
     n_inputs (node_at g3 new_fq) !! i = n_inputs (node_at g (b_fq b)) !! i) /\
  (exists low high,
     n_inputs (node_at g3 new_fq) !! 3%nat = Some (low, 0%nat) /\
     n_inputs (node_at g3 new_fq) !! 4%nat = Some (high, 0%nat) /\
     g !! low = None /\ g !! high = None /\
     is_Some (g3 !! low) /\ is_Some (g3 !! high)) /\
  n_friendly_name (node_at g3 new_fq) = EmptyString /\
  n_rt_info (node_at g3 new_fq) = ∅.
Proof.
  intros Hc Hb Hp. pose proof (prepare_extends infer g b Hc Hb) as He.
  rewrite Hp in He. simpl in He.
  destruct (prepare_ready_inv infer g b new_fq g3 ts Hc Hb Hp)
    as (gs & mc & ts0 & ts3 & Hes & _ & Hbuild & ->).
  destruct (build_replacement_inv infer gs b mc new_fq g3 ts3 Hbuild)
    as (i0 & i1 & i2 & rest & low & g1 & high & g2 & Hin & _ & _ & _ & Hg3 & ->).
  rewrite (extends_node_at g gs ts0 (b_fq b) Hes) in Hin, Hg3 by apply Hb.
  simpl in He.
  assert (Ht : forall t, t ∈ new_fq :: high :: low :: ts0 ->
                         g !! t = None /\ is_Some (g3 !! t)).
  { intros t Hin'. destruct (extends_temps g g3 _ t He Hin') as [H1 H2].
    split; [by apply not_elem_of_dom|by apply elem_of_dom]. }
  rewrite Hg3, node_at_insert_eq. rewrite <- Hg3. simpl.
  split; [apply Ht, list_elem_of_here|].
  split; [reflexivity|]. split; [reflexivity|]. split.
  { intros i Hi. rewrite Hin. by destruct i as [|[|[|i]]]; try lia. }
  split; [|done].
  exists low, high. split; [reflexivity|]. split; [reflexivity|].
  assert (Hl : low ∈ new_fq :: high :: low :: ts0)
    by (do 2 apply list_elem_of_further; apply list_elem_of_here).
  assert (Hh : high ∈ new_fq :: high :: low :: ts0)
    by (apply list_elem_of_further, list_elem_of_here).
  repeat split; by apply Ht.
Qed.

(** An output-range input that the folder cannot evaluate (anything but
    a Constant, a Multiply or a Reshape) gets a runtime Multiply: a fresh
    node reading the range and port 0 of the scale, which carries the
    metadata of the range node and stays in the arena. *)
Theorem runtime_range_stays_multiply (g : graph) (mc : nat) (o : Output) :
  foldable_kind (n_op (node_at g o.1)) = false ->
  o.1 ∈ dom g ->
  let ret := fresh (dom g) in
  g !! ret = None /\
  get_adjusted_output_range infer g mc o
    = (ret,
       <[ret := Node OpMultiply [o; (mc, 0%nat)] EmptyString
                     (n_rt_info (node_at g o.1))
                     (infer g OpMultiply [o; (mc, 0%nat)]).1
                     (infer g OpMultiply [o; (mc, 0%nat)]).2]> g).
Proof.
  intros Hk Ho ret.
  assert (Hret : g !! ret = None) by apply not_elem_of_dom, is_fresh.
  split; [exact Hret|].
  assert (Hne : o.1 <> ret).
  { intros Heq. apply elem_of_dom in Ho as [x Hx]. rewrite Heq in Hx. congruence. }
  unfold get_adjusted_output_range, make_node, alloc. cbv beta iota zeta.
  fold ret. unfold copy_runtime_info. rewrite alter_insert_eq.
  set (n' := set_rt_info _ _).
  assert (Heval : evaluate_if_constant (<[ret := n']> g) (ret, 0%nat) = None).
  { unfold evaluate_if_constant. rewrite map_size_insert_None by done.
    rewrite constant_value_S. cbn [fst]. rewrite node_at_insert_eq.
    unfold n'. cbn [n_op n_inputs set_rt_info mk_node].
    destruct (size g) as [|k]; [reflexivity|].
    rewrite (constant_value_S k _ o), node_at_insert_ne by done.
    by destruct (n_op (node_at g o.1)). }
  rewrite Heval. f_equal. f_equal. unfold n', set_rt_info, mk_node. simpl.
  f_equal. rewrite node_at_insert_ne by done.
  unfold merge_rt_info. simpl. by rewrite (left_id_L ∅ (∪)).
Qed.

End ReplacementShape.

Lemma replacement_clones_quantize_witness :
  exists new_fq g3 ts,
    prepare ngraph_infer g_accept fusion_binding = PrepReady new_fq g3 ts /\
    n_op (node_at g3 new_fq) = OpFakeQuantize 256 AB_NUMPY /\
    n_inputs (node_at g3 new_fq) !! 0%nat = Some (0, 0)%nat.
Proof.
  assert (Hc : closed g_accept /\ bound g_accept fusion_binding).
  { split; apply (bool_decide_unpack _); vm_compute; exact I. }
  destruct (prepare ngraph_infer g_accept fusion_binding)
    as [g1 ts|g1 ts|new_fq g3 ts] eqn:Hp; try (vm_compute in Hp; discriminate).
  destruct (replacement_clones_quantize ngraph_infer g_accept fusion_binding
              new_fq g3 ts (proj1 Hc) (proj2 Hc) Hp)
    as (_ & Hop & _ & Hin & _).
  exists new_fq, g3, ts. split; [reflexivity|]. split; [exact Hop|].
  rewrite Hin by lia. reflexivity.
Defined.

Lemma runtime_range_stays_multiply_witness :
  get_adjusted_output_range ngraph_infer g_runtime_range 6 (3, 0)%nat
    = (9%nat,
       <[9%nat := Node OpMultiply [(3, 0); (6, 0)]%nat EmptyString
                       {["origin" := "calibration"]} f32
                       (static_pshape [1%nat])]> g_runtime_range).
Proof.
  destruct (runtime_range_stays_multiply ngraph_infer g_runtime_range 6%nat
              (3, 0)%nat) as [_ H].
  - reflexivity.
  - apply (bool_decide_unpack _). vm_compute. exact I.
  - exact H.
Defined.

(** ** When the rewrite is accepted (lines 118-148) *)

Lemma shape_check_passes_iff (new_fq mul : node) :
  shape_check_passes new_fq mul = true <->
  exists l ab,
    n_op new_fq = OpFakeQuantize l ab /\
    (ab = AB_NUMPY ->
     pshape_is_dynamic (output_pshape new_fq) = false /\
     pshape_is_dynamic (output_pshape mul) = false /\
     get_shape new_fq = get_shape mul).
Proof.
  unfold shape_check_passes. split.
  - destruct (n_op new_fq) as [| |l ab| | | | | |]; try discriminate.
    intros H. exists l, ab. split; [reflexivity|]. intros ->.
    destruct (pshape_is_dynamic (output_pshape new_fq)); [discriminate|].
    destruct (pshape_is_dynamic (output_pshape mul)); [discriminate|].
    simpl in H. by apply bool_decide_eq_true in H.
  - intros (l & ab & -> & H). destruct ab; try reflexivity.
    destruct (H eq_refl) as (-> & -> & Heq). simpl.
    by apply bool_decide_eq_true.
Qed.

Section Acceptance.

Variable infer : graph -> op_kind -> list Output -> element_type * partial_shape.
Variable transformation_callback : graph -> nat -> bool.

(** Once the replacement is built, the callback returns true exactly
    when the hook does not veto (it is not asked when the data is a
    Constant), the quantize node is a FakeQuantize, and - under the NUMPY
    policy only - the output shapes of the replacement and of the
    Multiply are fully known and equal.  Under any other policy the
    shapes play no part. *)
Theorem rewrite_accepted_iff (g : graph) (b : binding) (new_fq : nat)
    (g3 : graph) (ts : list nat) :
  closed g -> bound g b ->
  prepare infer g b = PrepReady new_fq g3 ts ->
  out_result (callback infer transformation_callback g b) = Returned true <->
  (is_constant (node_at g (b_data b).1) = true \/
   transformation_callback g3 new_fq = false) /\
  exists l ab,
    n_op (node_at g (b_fq b)) = OpFakeQuantize l ab /\
    (ab = AB_NUMPY ->
     pshape_is_dynamic (output_pshape (node_at g3 new_fq)) = false /\
     pshape_is_dynamic (output_pshape (node_at g (b_mul b))) = false /\
     get_shape (node_at g3 new_fq) = get_shape (node_at g (b_mul b))).
Proof.
  intros Hc Hb Hp.
  rewrite <- (prepare_ready_op infer g b new_fq g3 ts Hc Hb Hp).
  rewrite <- (prepare_ready_node_at infer g b new_fq g3 ts (b_mul b) Hc Hb Hp)
    by apply Hb.
  rewrite <- (prepare_ready_node_at infer g b new_fq g3 ts (b_data b).1 Hc Hb Hp)
    by apply Hb.
  rewrite <- shape_check_passes_iff.
  unfold callback. rewrite Hp. unfold decide_rewrite.
  destruct (is_constant (node_at g3 (b_data b).1));
    destruct (transformation_callback g3 new_fq);
    destruct (shape_check_passes _ _); simpl; split;
    try discriminate; try (intros [[?|?] ?]; discriminate); auto.
Qed.

End Acceptance.

Lemma rewrite_accepted_iff_witness :
  out_result (callback ngraph_infer never_veto (g_dynamic_dim AB_NONE)
                       fusion_binding) = Returned true.
Proof.
  assert (Hc : closed (g_dynamic_dim AB_NONE)
               /\ bound (g_dynamic_dim AB_NONE) fusion_binding).
  { split; apply (bool_decide_unpack _); vm_compute; exact I. }
  destruct (prepare ngraph_infer (g_dynamic_dim AB_NONE) fusion_binding)
    as [g1 ts|g1 ts|new_fq g3 ts] eqn:Hp; try (vm_compute in Hp; discriminate).
  apply (rewrite_accepted_iff ngraph_infer never_veto (g_dynamic_dim AB_NONE)
           fusion_binding new_fq g3 ts (proj1 Hc) (proj2 Hc) Hp).
  split; [by right|].
  exists 256%nat, AB_NONE. split; [reflexivity|]. discriminate.
Defined.
